(** * Indigo: the turn planning engine of [algo_strategy.py]

    A shallow embedding of [AlgoStrategy] (indigo-algo/algo_strategy.py) and
    the properties of its funnel strategy, risk estimate and breach log.

    The engine client [gamelib] is not part of the embedded file.  Its
    [GameState] object is taken as an interface ([GameLib] below): the
    queries the strategy reads, and [attempt_spawn], which mutates the game
    state.  Every call the strategy makes on the game state is also recorded
    in a call trace, so that "an attempt is issued" is a statement about
    that trace. *)

From Stdlib Require Import ZArith QArith Qround List Bool Lia Permutation.
Import ListNotations.
Open Scope Z_scope.

(** ** Data model *)

(** A location is the Python list [[x, y]]. *)
Definition Location : Type := (Z * Z)%type.

Definition location_eqb (a b : Location) : bool :=
  (fst a =? fst b) && (snd a =? snd b).

(** The six unit shorthands bound by [on_game_start], in the order of
    [config["unitInformation"]]. *)
Inductive UnitKind : Type :=
  FILTER | ENCRYPTOR | DESTRUCTOR | PING | EMP | SCRAMBLER.

Definition UnitKind_eqb (a b : UnitKind) : bool :=
  match a, b with
  | FILTER, FILTER | ENCRYPTOR, ENCRYPTOR | DESTRUCTOR, DESTRUCTOR
  | PING, PING | EMP, EMP | SCRAMBLER, SCRAMBLER => true
  | _, _ => false
  end.

(** The stationary archetypes ([stationary_units] in [emp_line_strategy]);
    the other three are the mobile ones. *)
Definition is_stationary (u : UnitKind) : bool :=
  match u with
  | FILTER | ENCRYPTOR | DESTRUCTOR => true
  | PING | EMP | SCRAMBLER => false
  end.

(** A [gamelib.GameUnit] as far as the strategy looks at it. *)
Record GameUnit : Type := mkUnit {
  unit_type : UnitKind;
  player_index : Z;
  unit_x : Z;
  unit_y : Z
}.

(** One entry of [events["breach"]] of an action frame: [breach[0]] is the
    location and [breach[4]] the owner of the breaching unit (1 is
    ourselves, 2 the opponent).  The other positions are never read. *)
Record Breach : Type := mkBreach {
  breach_location : Location;
  breach_owner : Z
}.

(** The calls made on the game state, in order. *)
Inductive Call : Type :=
| AttemptSpawn (unit : UnitKind) (locations : list Location) (num : Z)
| SubmitTurn.

Definition is_spawn_of (u : UnitKind) (c : Call) : bool :=
  match c with
  | AttemptSpawn u' _ _ => UnitKind_eqb u u'
  | SubmitTurn => false
  end.

(** The exceptions the embedded code can raise. *)
Inductive PyExn : Type := AttributeError | ValueError | IndexError.

Inductive outcome (A : Type) : Type :=
| Returned (a : A)
| Raised (e : PyExn).
Arguments Returned {A} a.
Arguments Raised {A} e.

(** ** Python list helpers *)

(** [range(lo, hi)] *)
Definition py_range (lo hi : Z) : list Z :=
  map (fun k => lo + Z.of_nat k) (seq 0 (Z.to_nat (hi - lo))).

(** [x in l] on integers *)
Definition py_in (x : Z) (l : list Z) : bool := existsb (Z.eqb x) l.

(** [min(l)]: the running minimum, replaced only by a strictly smaller
    item; [ValueError] on the empty list. *)
Fixpoint min_from (cur : Z) (l : list Z) : Z :=
  match l with
  | [] => cur
  | x :: l' => min_from (if x <? cur then x else cur) l'
  end.

Definition py_min (l : list Z) : outcome Z :=
  match l with
  | [] => Raised ValueError
  | x :: l' => Returned (min_from x l')
  end.

(** [l.index(v)]: the first position holding [v]; [ValueError] if none. *)
Fixpoint py_index (v : Z) (l : list Z) : outcome nat :=
  match l with
  | [] => Raised ValueError
  | x :: l' =>
      if x =? v then Returned O
      else match py_index v l' with
           | Returned i => Returned (S i)
           | Raised e => Raised e
           end
  end.

(** [l[i]] for an integer [i]: negative indices count from the end,
    [IndexError] out of range. *)
Definition py_getitem {A} (l : list A) (i : Z) : outcome A :=
  let n := Z.of_nat (length l) in
  let j := if i <? 0 then i + n else i in
  if (j <? 0) || (n <=? j) then Raised IndexError
  else match nth_error l (Z.to_nat j) with
       | Some a => Returned a
       | None => Raised IndexError
       end.

(** The sum of a list of integers. *)
Definition list_sum_Z (l : list Z) : Z := fold_right Z.add 0 l.

(** ** The engine client interface

    Resource pools are floats with one decimal in play; the pool is a
    rational here, so that [>= 10] and [// 4] read as in the source.  The
    configured damage values are whole numbers and are integers here.
    [find_path_to_edge] returns the traversed locations in order, possibly
    none. *)

Class GameLib : Type := {
  (** [gamelib.GameState] *)
  GameState : Type;
  (** the state of the module-level [random] generator *)
  Random : Type;
  (** [game_state.turn_number] *)
  turn_number : GameState -> Z;
  (** [game_state.get_resource(game_state.BITS)] *)
  get_resource_BITS : GameState -> Q;
  (** [game_state.find_path_to_edge(location)] *)
  find_path_to_edge : GameState -> Location -> list Location;
  (** [game_state.get_attackers(location, player_index)] *)
  get_attackers : GameState -> Location -> Z -> list GameUnit;
  (** [game_state.attempt_spawn(unit_type, locations, num)]: the game
      state after the call *)
  attempt_spawn : GameState -> UnitKind -> list Location -> Z -> GameState;
  (** [gamelib.GameUnit(unit_type, config).damage]; the configuration is
      read once at match start and is the same for every turn *)
  unit_damage : UnitKind -> Z;
  (** [random.randint(a, b)] *)
  randint : Random -> Z -> Z -> Z * Random
}.

(** ** The strategy *)

Section Strategy.

Context {G : GameLib}.

(** The attributes of the [AlgoStrategy] instance, and the generator seeded
    in [__init__].  [best_location] is [None] while the attribute has not
    been assigned. *)
Record AlgoStrategy : Type := mkAlgo {
  scored_on_locations : list Location;
  funnel_left : bool;
  best_location : option Location;
  random_state : Random
}.

(** [on_game_start] *)
Definition on_game_start (seed : Random) : AlgoStrategy :=
  {| scored_on_locations := [];
     funnel_left := true;
     best_location := None;
     random_state := seed |}.

(** What a planning pass works on: the instance, the turn's game state and
    the calls made on it so far. *)
Record World : Type := mkWorld {
  self : AlgoStrategy;
  game_state : GameState;
  calls : list Call
}.

(** A statement of the program: it returns or raises, and leaves a world
    behind either way. *)
Definition M (A : Type) : Type := World -> outcome A * World.

Definition ret {A} (a : A) : M A := fun w => (Returned a, w).

Definition bind {A B} (m : M A) (k : A -> M B) : M B :=
  fun w =>
    match m w with
    | (Returned a, w') => k a w'
    | (Raised e, w') => (Raised e, w')
    end.

Definition raise {A} (e : PyExn) : M A := fun w => (Raised e, w).

Definition lift {A} (o : outcome A) : M A := fun w => (o, w).

Notation "x <- m ;; k" := (bind m (fun x => k))
  (at level 61, m at next level, right associativity).
Notation "m ;;; k" := (bind m (fun _ => k))
  (at level 61, right associativity).

Definition get_game_state : M GameState := fun w => (Returned (game_state w), w).
Definition get_self : M AlgoStrategy := fun w => (Returned (self w), w).
Definition put_self (s : AlgoStrategy) : M unit :=
  fun w => (Returned tt, {| self := s; game_state := game_state w; calls := calls w |}).

(** The world after [game_state.attempt_spawn(unit, locations, num)]. *)
Definition emit (u : UnitKind) (locs : list Location) (n : Z) (w : World) : World :=
  {| self := self w;
     game_state := attempt_spawn (game_state w) u locs n;
     calls := calls w ++ [AttemptSpawn u locs n] |}.

(** [game_state.attempt_spawn(unit, locations, num=1)]; a single location
    is the one-element list, as [gamelib] normalises it. *)
Definition spawn (u : UnitKind) (locs : list Location) (n : Z) : M unit :=
  fun w => (Returned tt, emit u locs n w).

Definition submit_turn : M unit :=
  fun w => (Returned tt,
            {| self := self w; game_state := game_state w;
               calls := calls w ++ [SubmitTurn] |}).

(** [for x in l: body(x)] *)
Fixpoint for_each {A} (l : list A) (body : A -> M unit) : M unit :=
  match l with
  | [] => ret tt
  | x :: l' => body x ;;; for_each l' body
  end.

(** The gap columns shared by the defense rows. *)
Definition gaps : list Z := [3; 6; 10; 12; 15; 17; 21; 24].

(** [build_defenses] *)
Definition destructor_locations_13 : list Location :=
  map (fun x => (x, 13)) (filter (fun x => negb (py_in x gaps)) (py_range 0 28)).

Definition build_defenses : M unit :=
  spawn DESTRUCTOR destructor_locations_13 1.

(** [build_reactive_defense] *)
Definition build_location (location : Location) : Location :=
  (fst location, snd location + 3).

Definition build_reactive_defense : M unit :=
  s <- get_self ;;
  for_each (scored_on_locations s)
           (fun location => spawn DESTRUCTOR [build_location location] 1).

(** The body shared by the row builders:
    [for i in range(lo, hi): if i not in gaps: extend([[i, y], [27-i, y]])] *)
Definition row_locations (lo hi y : Z) : list Location :=
  flat_map (fun i => if py_in i gaps then [] else [(i, y); (27 - i, y)])
           (py_range lo hi).

(** [build_additional_defenses], the definition at line 132 *)
Definition additional_locations_first : list Location := row_locations 1 27 12.

Definition build_additional_defenses_first : M unit :=
  spawn DESTRUCTOR additional_locations_first 1.

(** [build_additional_defenses], the definition at line 153.  It is the
    later binding of the name in the class body, so it is the method that
    [funnel_strategy] calls. *)
Definition additional_locations_second : list Location := row_locations 1 13 12.

Definition build_additional_defenses : M unit :=
  spawn DESTRUCTOR additional_locations_second 1.

(** [build_better_tunnel] *)
Definition tunnel_locations : list Location :=
  [(5, 11); (6, 10); (7, 9); (8, 8); (9, 7); (10, 6); (11, 5); (12, 4);
   (14, 3); (15, 4); (16, 5); (17, 6); (18, 7); (19, 8)].

Definition build_better_tunnel : M unit := spawn ENCRYPTOR tunnel_locations 1.

(** [build_defenses3] *)
Definition build_defenses3 : M unit :=
  spawn DESTRUCTOR (row_locations 2 26 11) 1.

(** [build_right_funnel] *)
Definition right_funnel_locations : list Location :=
  [(3, 11); (4, 11); (5, 10); (6, 9); (7, 8); (8, 7); (9, 6); (10, 5); (11, 4);
   (12, 3); (13, 2); (14, 2); (15, 3); (16, 4); (17, 5); (18, 6); (19, 7);
   (20, 8)].

Definition build_right_funnel : M unit := spawn ENCRYPTOR right_funnel_locations 1.

(** [build_left_funnel] *)
Definition left_funnel_locations : list Location :=
  [(24, 11); (23, 11); (22, 10); (21, 9); (20, 8); (19, 7); (18, 6); (17, 5);
   (16, 4); (15, 3); (14, 2); (12, 3); (11, 4); (10, 5); (9, 6); (8, 7); (7, 8)].

Definition build_left_funnel : M unit := spawn ENCRYPTOR left_funnel_locations 1.

(** The pattern a committed side builds. *)
Definition funnel_locations (left : bool) : list Location :=
  if left then left_funnel_locations else right_funnel_locations.

(** [stall_with_scramblers].  [count] only grows and [deploy_locations] is
    never shortened, so the [while] loop runs at most [quarter] times: the
    fuel passed by the caller is that bound. *)
Definition deploy_locations : list Location := [(9, 4); (18, 4)].

Definition draw (a b : Z) : M Z :=
  fun w =>
    let s := self w in
    let (v, r) := randint (random_state s) a b in
    (Returned v,
     {| self := {| scored_on_locations := scored_on_locations s;
                   funnel_left := funnel_left s;
                   best_location := best_location s;
                   random_state := r |};
        game_state := game_state w;
        calls := calls w |}).

Fixpoint stall_loop (fuel : nat) (count quarter : Z) : M unit :=
  match fuel with
  | O => ret tt
  | S fuel' =>
      if (count <? quarter) && (0 <? Z.of_nat (length deploy_locations)) then
        deploy_index <- draw 0 (Z.of_nat (length deploy_locations) - 1) ;;
        deploy_location <- lift (py_getitem deploy_locations deploy_index) ;;
        spawn SCRAMBLER [deploy_location] 1 ;;;
        stall_loop fuel' (count + 1) quarter
      else ret tt
  end.

Definition stall_with_scramblers : M unit :=
  gs <- get_game_state ;;
  let quarter := Qfloor (get_resource_BITS gs / 4) + 1 in
  stall_loop (Z.to_nat quarter) 0 quarter.

(** The inner loop of [least_damage_spawn_location]: the damage estimate
    of one path. *)
Definition path_damage (gs : GameState) (path : list Location) : Z :=
  fold_left
    (fun damage path_location =>
       damage + Z.of_nat (length (get_attackers gs path_location 0)) * unit_damage DESTRUCTOR)
    path 0.

(** [least_damage_spawn_location] *)
Definition damages_of (gs : GameState) (location_options : list Location) : list Z :=
  map (fun location => path_damage gs (find_path_to_edge gs location)) location_options.

Definition least_damage_spawn_location
    (gs : GameState) (location_options : list Location) : outcome Location :=
  let damages := damages_of gs location_options in
  match py_min damages with
  | Raised e => Raised e
  | Returned m =>
      match py_index m damages with
      | Raised e => Raised e
      | Returned i => py_getitem location_options (Z.of_nat i)
      end
  end.

(** The two candidates of the decision turn. *)
Definition ping_spawn_location_options : list Location := [(3, 10); (24, 10)].

Definition set_best_location (l : Location) : M unit :=
  s <- get_self ;;
  put_self {| scored_on_locations := scored_on_locations s;
              funnel_left := funnel_left s;
              best_location := Some l;
              random_state := random_state s |}.

Definition set_funnel_left (b : bool) : M unit :=
  s <- get_self ;;
  put_self {| scored_on_locations := scored_on_locations s;
              funnel_left := b;
              best_location := best_location s;
              random_state := random_state s |}.

(** Reading [self.best_location]: [AttributeError] while unassigned. *)
Definition read_best_location : M Location :=
  s <- get_self ;;
  match best_location s with
  | Some l => ret l
  | None => raise AttributeError
  end.

(** [funnel_strategy] *)
Definition funnel_strategy : M unit :=
  build_defenses ;;;
  build_reactive_defense ;;;
  gs <- get_game_state ;;
  if turn_number gs <? 3 then
    stall_with_scramblers
  else if turn_number gs =? 3 then
    gs <- get_game_state ;;
    best <- lift (least_damage_spawn_location gs ping_spawn_location_options) ;;
    set_best_location best ;;;
    chosen <- read_best_location ;;
    if location_eqb chosen (2, 11) then
      build_left_funnel ;;;
      set_funnel_left true
    else
      build_right_funnel ;;;
      set_funnel_left false
  else if turn_number gs >? 3 then
    s <- get_self ;;
    (if funnel_left s then build_left_funnel else build_right_funnel) ;;;
    build_additional_defenses ;;;
    build_better_tunnel ;;;
    build_defenses3 ;;;
    gs <- get_game_state ;;
    if Qle_bool 10 (get_resource_BITS gs) then
      best_location <- read_best_location ;;
      spawn PING [best_location] 1000
    else ret tt
  else ret tt.

(** [on_turn]: the game state wrapper of the turn is the argument. *)
Definition init_world (s : AlgoStrategy) (gs : GameState) : World :=
  {| self := s; game_state := gs; calls := [] |}.

Definition on_turn (s : AlgoStrategy) (gs : GameState) : outcome unit * World :=
  (funnel_strategy ;;; submit_turn) (init_world s gs).

(** [on_action_frame]: the argument is [state["events"]["breach"]] of the
    parsed frame. *)
Definition unit_owner_self (breach : Breach) : bool := breach_owner breach =? 1.

Definition record_breach (log : list Location) (breach : Breach) : list Location :=
  if negb (unit_owner_self breach) then log ++ [breach_location breach] else log.

Definition on_action_frame (s : AlgoStrategy) (breaches : list Breach) : AlgoStrategy :=
  {| scored_on_locations := fold_left record_breach breaches (scored_on_locations s);
     funnel_left := funnel_left s;
     best_location := best_location s;
     random_state := random_state s |}.

(** ** A match as the engine drives it *)

(** The engine sends turn records and action frames, in any interleaving. *)
Inductive Event : Type :=
| Turn (gs : GameState)
| ActionFrame (breaches : list Breach).

(** One message: the instance afterwards, or the exception that ends the
    process (nothing in [AlgoCore] catches it). *)
Definition step (s : AlgoStrategy) (e : Event) : outcome AlgoStrategy :=
  match e with
  | Turn gs =>
      match on_turn s gs with
      | (Returned _, w) => Returned (self w)
      | (Raised x, _) => Raised x
      end
  | ActionFrame breaches => Returned (on_action_frame s breaches)
  end.

Fixpoint run (s : AlgoStrategy) (events : list Event) : outcome AlgoStrategy :=
  match events with
  | [] => Returned s
  | e :: events' =>
      match step s e with
      | Returned s' => run s' events'
      | Raised x => Raised x
      end
  end.

(** The calls one turn makes, whether it returns or raises. *)
Definition turn_calls (s : AlgoStrategy) (gs : GameState) : list Call :=
  calls (snd (on_turn s gs)).

Definition is_turn (n : Z) (e : Event) : Prop :=
  match e with
  | Turn gs => turn_number gs = n
  | ActionFrame _ => False
  end.

Definition later_event (e : Event) : Prop :=
  match e with
  | Turn gs => 3 < turn_number gs
  | ActionFrame _ => True
  end.

(** *** The worlds the planning pass goes through

    The straight-line parts of [funnel_strategy], written as functions on
    worlds; the lemmas below show that the monadic program computes them. *)

(** after the loop of [build_reactive_defense] over [log] *)
Definition reinforce (log : list Location) (w : World) : World :=
  fold_left (fun w location => emit DESTRUCTOR [build_location location] 1 w) log w.

(** after [build_defenses] and [build_reactive_defense] *)
Definition prelude (w : World) : World :=
  reinforce (scored_on_locations (self w)) (emit DESTRUCTOR destructor_locations_13 1 w).

(** after the funnel and the three fortification passes of a turn past 3 *)
Definition fortify (w : World) : World :=
  emit DESTRUCTOR (row_locations 2 26 11) 1
    (emit ENCRYPTOR tunnel_locations 1
       (emit DESTRUCTOR additional_locations_second 1
          (emit ENCRYPTOR (funnel_locations (funnel_left (self w))) 1 w))).

(** The risk score of a candidate entry location. *)
Definition risk (gs : GameState) (location : Location) : Z :=
  path_damage gs (find_path_to_edge gs location).

(** The score as the sum, over the path, of every attacker's own damage. *)
Definition own_damage_sum (gs : GameState) (path : list Location) : Z :=
  list_sum_Z
    (map (fun path_location =>
            list_sum_Z (map (fun u => unit_damage (unit_type u))
                            (get_attackers gs path_location 0)))
         path).

(** The score as the sum, over the path, of count times destructor damage. *)
Definition count_damage_sum (gs : GameState) (path : list Location) : Z :=
  list_sum_Z
    (map (fun path_location =>
            Z.of_nat (length (get_attackers gs path_location 0)) * unit_damage DESTRUCTOR)
         path).

(** The candidate the decision turn settles on. *)
Definition best_of (gs : GameState) : Location :=
  if risk gs (24, 10) <? risk gs (3, 10) then (24, 10) else (3, 10).

(** after the decision branch of turn 3, from the world after the prelude *)
Definition decided (w : World) : World :=
  {| self := {| scored_on_locations := scored_on_locations (self w);
                funnel_left := false;
                best_location := Some (best_of (game_state w));
                random_state := random_state (self w) |};
     game_state := attempt_spawn (game_state w) ENCRYPTOR right_funnel_locations 1;
     calls := calls w ++ [AttemptSpawn ENCRYPTOR right_funnel_locations 1] |}.

(** the swarm step of a turn past 3, from the fortified world *)
Definition offensive (w : World) : outcome unit * World :=
  if Qle_bool 10 (get_resource_BITS (game_state w)) then
    match best_location (self w) with
    | Some l => (Returned tt, emit PING [l] 1000 w)
    | None => (Raised AttributeError, w)
    end
  else (Returned tt, w).

(** The attributes of the instance that outlive a turn, the generator apart. *)
Definition same_attributes (s s' : AlgoStrategy) : Prop :=
  scored_on_locations s' = scored_on_locations s
  /\ funnel_left s' = funnel_left s
  /\ best_location s' = best_location s.

(** The commitment: the side flag and the chosen spawn location. *)
Definition same_commitment (s s' : AlgoStrategy) : Prop :=
  funnel_left s' = funnel_left s /\ best_location s' = best_location s.

(** The calls that close a turn past 3: the swarm, if any, and the
    submission. *)
Definition swarm_calls (s : AlgoStrategy) (gs : GameState) : list Call :=
  if Qle_bool 10 (get_resource_BITS gs) then
    match best_location s with
    | Some l => [AttemptSpawn PING [l] 1000; SubmitTurn]
    | None => []
    end
  else [SubmitTurn].

(** The spawn location is one of the two candidates. *)
Definition chosen (s : AlgoStrategy) : Prop :=
  best_location s = Some (3, 10) \/ best_location s = Some (24, 10).

(** What one message adds to the breach log. *)
Definition logged (e : Event) : list Location :=
  match e with
  | Turn _ => []
  | ActionFrame breaches =>
      map breach_location (filter (fun b => negb (unit_owner_self b)) breaches)
  end.

(** One side's attackers grow from [gs] to [gs']: at every location of the
    path, the attackers in [gs'] are those in [gs] and possibly more. *)
Definition defenders_added (gs gs' : GameState) (path : list Location) : Prop :=
  forall p, In p path ->
    exists extra,
      Permutation (get_attackers gs' p 0) (extra ++ get_attackers gs p 0).

End Strategy.

Arguments AlgoStrategy {G}.
Arguments World {G}.
Arguments Event {G}.

Notation "x <- m ;; k" := (bind m (fun x => k))
  (at level 61, m at next level, right associativity).
Notation "m ;;; k" := (bind m (fun _ => k))
  (at level 61, right associativity).

(** What the strategy relies on from the engine client: [attempt_spawn]
    leaves the turn counter alone; placing a stationary unit is paid from
    the build pool, not from the mobile-spawn pool; and the attackers of a
    location are destructors ("number of enemy destructors that can
    attack", as [least_damage_spawn_location] puts it). *)
Class GameLibLaws (G : GameLib) : Prop := {
  turn_number_attempt_spawn :
    forall gs u locs n, turn_number (attempt_spawn gs u locs n) = turn_number gs;
  bits_attempt_spawn_stationary :
    forall gs u locs n,
      is_stationary u = true ->
      (get_resource_BITS (attempt_spawn gs u locs n) == get_resource_BITS gs)%Q;
  attackers_are_destructors :
    forall gs location player u,
      In u (get_attackers gs location player) -> unit_type u = DESTRUCTOR
}.

(** ** A concrete arena

    A small engine client to run the strategy on: the board lists the
    stationary units on it, the paths are given as a table, and a
    destructor reaches the cells within distance 3.5 of its own. *)
Module Arena.

Record Board : Type := mkBoard {
  turn : Z;
  bits : Q;
  units : list GameUnit;
  paths : list (Location * list Location)
}.

Fixpoint lookup_path (table : list (Location * list Location)) (l : Location)
  : list Location :=
  match table with
  | [] => []
  | (k, p) :: table' => if location_eqb k l then p else lookup_path table' l
  end.

(** squared distance at most 3.5 squared, on integer coordinates *)
Definition in_range (u : GameUnit) (l : Location) : bool :=
  (unit_x u - fst l) * (unit_x u - fst l)
  + (unit_y u - snd l) * (unit_y u - snd l) <=? 12.

Definition attackers (b : Board) (l : Location) (player : Z) : list GameUnit :=
  filter (fun u => UnitKind_eqb (unit_type u) DESTRUCTOR
                   && negb (player_index u =? player)
                   && in_range u l)
         (units b).

Definition cost (u : UnitKind) : Q :=
  match u with
  | PING | SCRAMBLER => 1
  | EMP => 3
  | _ => 0
  end.

(** Stationary placements are not tracked; a mobile spawn of [n] units is
    paid in full when affordable and skipped otherwise. *)
Definition place (b : Board) (u : UnitKind) (locs : list Location) (n : Z) : Board :=
  if is_stationary u then b
  else if Qle_bool (inject_Z n * cost u) (bits b)
       then {| turn := turn b; bits := bits b - inject_Z n * cost u;
               units := units b; paths := paths b |}
       else b.

Definition base_damage (u : UnitKind) : Z :=
  match u with
  | DESTRUCTOR => 16
  | EMP => 8
  | PING => 2
  | SCRAMBLER => 20
  | _ => 0
  end.

(** a counter-based generator: the draws cycle through the interval *)
Definition next_int (r : nat) (a b : Z) : Z * nat :=
  (a + Z.of_nat r mod (b - a + 1), S r).

#[export] Instance lib : GameLib := {|
  GameState := Board;
  Random := nat;
  turn_number := turn;
  get_resource_BITS := bits;
  find_path_to_edge := fun b l => lookup_path (paths b) l;
  get_attackers := attackers;
  attempt_spawn := place;
  unit_damage := base_damage;
  randint := next_int
|}.

(** an enemy destructor at [(x, y)] *)
Definition enemy_destructor (x y : Z) : GameUnit :=
  {| unit_type := DESTRUCTOR; player_index := 1; unit_x := x; unit_y := y |}.

(** the two lanes of the decision turn, as short paths *)
Definition lanes : list (Location * list Location) :=
  [((3, 10), [(3, 10); (4, 10); (4, 11); (5, 11); (5, 12)]);
   ((24, 10), [(24, 10); (23, 10); (23, 11); (22, 11); (22, 12)])].

(** no enemy structure anywhere *)
Definition empty_board (t : Z) (b : Q) : Board :=
  {| turn := t; bits := b; units := []; paths := lanes |}.

(** one enemy destructor next to the right lane *)
Definition guarded_right (t : Z) (b : Q) : Board :=
  {| turn := t; bits := b; units := [enemy_destructor 22 14]; paths := lanes |}.

(** one enemy destructor next to the left lane *)
Definition guarded_left (t : Z) (b : Q) : Board :=
  {| turn := t; bits := b; units := [enemy_destructor 5 14]; paths := lanes |}.

(** the left entry is walled in (no path), the right lane is guarded *)
Definition blocked_left (t : Z) (b : Q) : Board :=
  {| turn := t; bits := b; units := [enemy_destructor 22 14];
     paths := [((24, 10), [(24, 10); (23, 10); (23, 11); (22, 11); (22, 12)])] |}.

Definition start : AlgoStrategy := on_game_start 0%nat.

(** the instance once turn 3 chose the first entry, with one breach logged *)
Definition committed : AlgoStrategy :=
  {| scored_on_locations := [(10, 2)];
     funnel_left := false;
     best_location := Some (3, 10);
     random_state := 0%nat |}.

End Arena.

(** ** The rest of [algo_strategy.py]

    The helpers of the file that [funnel_strategy] does not call read the
    game map and the configured costs as well. *)

Class GameMapLib (G : GameLib) : Type := {
  (** [for location in game_state.game_map]: the locations, in order *)
  game_map : GameState -> list Location;
  (** [game_state.game_map[location]]: the units on a location *)
  game_map_at : GameState -> Location -> list GameUnit;
  (** [game_state.contains_stationary_unit(location)], as a truth value *)
  contains_stationary_unit : GameState -> Location -> bool;
  (** [gamelib.GameUnit(unit_type, config).cost] *)
  unit_cost : UnitKind -> Q
}.

(** [a < b] on the rationals, as a truth value *)
Definition Qlt_bool (a b : Q) : bool := negb (Qle_bool b a).

(** [range(start, stop, -1)] *)
Definition py_range_desc (start stop : Z) : list Z :=
  map (fun k => start - Z.of_nat k) (seq 0 (Z.to_nat (start - stop))).

(** [x is None or p(x)] for an optional argument *)
Definition none_or {A} (o : option A) (p : A -> bool) : bool :=
  match o with
  | None => true
  | Some a => p a
  end.

Section Rest.

Context {G : GameLib} {GM : GameMapLib G}.

(** [filter_blocked_locations] *)
Definition filter_blocked_locations
    (locations : list Location) (gs : GameState) : list Location :=
  fold_left
    (fun filtered location =>
       if negb (contains_stationary_unit gs location)
       then filtered ++ [location] else filtered)
    locations [].

(** [detect_enemy_unit]: the test of the innermost [if] *)
Definition counts_as_enemy
    (ut : option UnitKind) (valid_x valid_y : option (list Z))
    (location : Location) (u : GameUnit) : bool :=
  (player_index u =? 1)
  && none_or ut (fun t => UnitKind_eqb (unit_type u) t)
  && none_or valid_x (py_in (fst location))
  && none_or valid_y (py_in (snd location)).

(** [detect_enemy_unit] *)
Definition detect_enemy_unit
    (gs : GameState) (ut : option UnitKind) (valid_x valid_y : option (list Z)) : Z :=
  fold_left
    (fun total_units location =>
       if contains_stationary_unit gs location then
         fold_left
           (fun total u =>
              if counts_as_enemy ut valid_x valid_y location u
              then total + 1 else total)
           (game_map_at gs location) total_units
       else total_units)
    (game_map gs) 0.

(** [emp_line_strategy]: the loop that picks the cheapest stationary unit *)
Definition stationary_units : list UnitKind := [FILTER; DESTRUCTOR; ENCRYPTOR].

Definition cheapest_unit : UnitKind :=
  fold_left
    (fun cheapest u =>
       if Qlt_bool (unit_cost u) (unit_cost cheapest) then u else cheapest)
    stationary_units FILTER.

(** The body shared by the two definitions of [emp_line_strategy]; they
    differ in the count requested for the EMP spawn. *)
Definition emp_line (count : Z) : M unit :=
  for_each (py_range_desc 27 5) (fun x => spawn cheapest_unit [(x, 11)] 1) ;;;
  spawn EMP [(24, 10)] count.

(** [emp_line_strategy], the definition at line 163 *)
Definition emp_line_strategy_first : M unit := emp_line 2.

(** [emp_line_strategy], the definition at line 218: the later binding of
    the name, so the method of the class. *)
Definition emp_line_strategy : M unit := emp_line 1000.

(** the world after the line of [emp_line_strategy] over the columns [xs] *)
Definition line_world (xs : list Z) (w : World) : World :=
  fold_left (fun w x => emit cheapest_unit [(x, 11)] 1 w) xs w.

(** The units of one location that pass the test of [detect_enemy_unit]. *)
Definition enemy_units_at
    (gs : GameState) (ut : option UnitKind) (valid_x valid_y : option (list Z))
    (location : Location) : Z :=
  if contains_stationary_unit gs location
  then Z.of_nat (length (filter (counts_as_enemy ut valid_x valid_y location)
                                (game_map_at gs location)))
  else 0.

(** The calls of the line of [emp_line_strategy] over the columns [xs]. *)
Definition line_calls (xs : list Z) : list Call :=
  map (fun x => AttemptSpawn cheapest_unit [(x, 11)] 1) xs.

(** The number of units [detect_enemy_unit] looks at. *)
Definition units_on_stationary_cells (gs : GameState) : Z :=
  list_sum_Z
    (map (fun location =>
            if contains_stationary_unit gs location
            then Z.of_nat (length (game_map_at gs location)) else 0)
         (game_map gs)).

End Rest.

Section Matches.

Context {G : GameLib}.

(** What [random.randint(a, b)] promises: a value between [a] and [b]. *)
Definition randint_in_range : Prop :=
  forall r a b, a <= b -> a <= fst (randint r a b) <= b.

(** The engine numbers the turns upwards: a turn past 3 only comes after
    turn 3 has been played.  [decided] tells whether it has. *)
Fixpoint decision_before_swarm (decided : bool) (events : list Event) : Prop :=
  match events with
  | [] => True
  | Turn gs :: events' =>
      (3 < turn_number gs -> decided = true)
      /\ decision_before_swarm (decided || (turn_number gs =? 3)) events'
  | ActionFrame _ :: events' => decision_before_swarm decided events'
  end.

(** The reinforcement calls of a log. *)
Definition reinforcement_calls (log : list Location) : list Call :=
  map (fun l => AttemptSpawn DESTRUCTOR [build_location l] 1) log.

Definition is_attempt (c : Call) : bool :=
  match c with
  | AttemptSpawn _ _ _ => true
  | SubmitTurn => false
  end.

End Matches.

(** The map of the concrete arena: the occupied cells, each with the units
    standing on it. *)
Module ArenaMap.

Import Arena.

Fixpoint occupied (us : list GameUnit) : list Location :=
  match us with
  | [] => []
  | u :: us' =>
      let l := (unit_x u, unit_y u) in
      if existsb (location_eqb l) (occupied us') then occupied us'
      else l :: occupied us'
  end.

Definition units_at (b : Board) (l : Location) : list GameUnit :=
  filter (fun u => location_eqb (unit_x u, unit_y u) l) (units b).

Definition price (u : UnitKind) : Q :=
  match u with
  | FILTER => 1
  | ENCRYPTOR => 4
  | DESTRUCTOR => 3
  | PING | SCRAMBLER => 1
  | EMP => 3
  end.

#[export] Instance map_lib : GameMapLib Arena.lib := {|
  game_map := fun b => occupied (units b);
  game_map_at := units_at;
  contains_stationary_unit :=
    fun b l => existsb (fun u => is_stationary (unit_type u)) (units_at b l);
  unit_cost := price
|}.

(** an arena where destructors are the cheapest structure *)
Definition discount (u : UnitKind) : Q :=
  match u with
  | FILTER => 2
  | ENCRYPTOR => 4
  | DESTRUCTOR => 1
  | _ => 1
  end.

Definition discount_lib : GameMapLib Arena.lib := {|
  game_map := fun b => occupied (units b);
  game_map_at := units_at;
  contains_stationary_unit :=
    fun b l => existsb (fun u => is_stationary (unit_type u)) (units_at b l);
  unit_cost := discount
|}.

(** two enemy destructors, an enemy filter and one of our own encryptors *)
Definition skirmish : Board :=
  {| turn := 5; bits := 7;
     units := [enemy_destructor 22 14;
               enemy_destructor 5 14;
               {| unit_type := FILTER; player_index := 1; unit_x := 6; unit_y := 15 |};
               {| unit_type := ENCRYPTOR; player_index := 0; unit_x := 3; unit_y := 11 |}];
     paths := lanes |}.

End ArenaMap.

(** ** Properties *)

Section Properties.

Context {G : GameLib}.

Lemma location_eqb_spec (a b : Location) : reflect (a = b) (location_eqb a b).
Proof.
  destruct a as [x y], b as [x' y']; unfold location_eqb; simpl.
  destruct (Z.eqb_spec x x'); destruct (Z.eqb_spec y y'); simpl;
    constructor; congruence.
Qed.

(** *** The reinforcement loop and the prelude of every turn *)

Lemma self_emit (u : UnitKind) (locs : list Location) (n : Z) (w : World) :
  self (emit u locs n w) = self w.
Proof. reflexivity. Qed.

Lemma calls_emit (u : UnitKind) (locs : list Location) (n : Z) (w : World) :
  calls (emit u locs n w) = calls w ++ [AttemptSpawn u locs n].
Proof. reflexivity. Qed.

Lemma for_each_spawn (log : list Location) (w : World) :
  for_each log (fun location => spawn DESTRUCTOR [build_location location] 1) w
  = (Returned tt, reinforce log w).
Proof.
  revert w; induction log as [|l log IH]; intros w; [reflexivity|].
  simpl. unfold bind at 1. unfold spawn at 1. apply IH.
Qed.

Lemma reinforce_cons (l : Location) (log : list Location) (w : World) :
  reinforce (l :: log) w = reinforce log (emit DESTRUCTOR [build_location l] 1 w).
Proof. reflexivity. Qed.

Lemma self_reinforce (log : list Location) (w : World) :
  self (reinforce log w) = self w.
Proof.
  revert w; induction log as [|l log IH]; intros w; [reflexivity|].
  rewrite reinforce_cons, IH. reflexivity.
Qed.

Lemma calls_reinforce (log : list Location) (w : World) :
  calls (reinforce log w)
  = calls w ++ map (fun l => AttemptSpawn DESTRUCTOR [build_location l] 1) log.
Proof.
  revert w; induction log as [|l log IH]; intros w.
  - simpl. now rewrite app_nil_r.
  - rewrite reinforce_cons, IH. simpl.
    now rewrite <- app_assoc.
Qed.

Lemma build_reactive_defense_eq (w : World) :
  build_reactive_defense w
  = (Returned tt, reinforce (scored_on_locations (self w)) w).
Proof. unfold build_reactive_defense, bind, get_self. apply for_each_spawn. Qed.

Lemma self_prelude (w : World) : self (prelude w) = self w.
Proof. unfold prelude. now rewrite self_reinforce. Qed.

Lemma calls_prelude (w : World) :
  calls (prelude w)
  = calls w ++ AttemptSpawn DESTRUCTOR destructor_locations_13 1
      :: map (fun l => AttemptSpawn DESTRUCTOR [build_location l] 1)
             (scored_on_locations (self w)).
Proof.
  unfold prelude. rewrite calls_reinforce. simpl calls.
  now rewrite <- app_assoc.
Qed.

(** What is left of [funnel_strategy] after the two opening passes. *)
Lemma funnel_strategy_prelude (w : World) :
  funnel_strategy w
  = (gs <- get_game_state ;;
     if turn_number gs <? 3 then stall_with_scramblers
     else if turn_number gs =? 3 then
       gs <- get_game_state ;;
       best <- lift (least_damage_spawn_location gs ping_spawn_location_options) ;;
       set_best_location best ;;;
       chosen <- read_best_location ;;
       if location_eqb chosen (2, 11) then build_left_funnel ;;; set_funnel_left true
       else build_right_funnel ;;; set_funnel_left false
     else if turn_number gs >? 3 then
       s <- get_self ;;
       (if funnel_left s then build_left_funnel else build_right_funnel) ;;;
       build_additional_defenses ;;;
       build_better_tunnel ;;;
       build_defenses3 ;;;
       gs <- get_game_state ;;
       if Qle_bool 10 (get_resource_BITS gs) then
         best_location <- read_best_location ;;
         spawn PING [best_location] 1000
       else ret tt
     else ret tt) (prelude w).
Proof.
  unfold funnel_strategy.
  unfold bind at 1. unfold build_defenses at 1, spawn at 1.
  unfold bind at 1. rewrite build_reactive_defense_eq.
  reflexivity.
Qed.

(** *** The risk estimate *)

Lemma fold_left_add_sum {A} (f : A -> Z) (l : list A) (a : Z) :
  fold_left (fun acc x => acc + f x) l a = a + list_sum_Z (map f l).
Proof.
  revert a; induction l as [|x l IH]; intros a; simpl.
  - lia.
  - rewrite IH. lia.
Qed.

Lemma path_damage_count_sum (gs : GameState) (path : list Location) :
  path_damage gs path = count_damage_sum gs path.
Proof.
  unfold path_damage, count_damage_sum.
  rewrite (fold_left_add_sum
             (fun p => Z.of_nat (length (get_attackers gs p 0)) * unit_damage DESTRUCTOR)).
  lia.
Qed.

Lemma list_sum_Z_const (A : Type) (f : A -> Z) (c : Z) (l : list A) :
  (forall x, In x l -> f x = c) ->
  list_sum_Z (map f l) = Z.of_nat (length l) * c.
Proof.
  induction l as [|x l IH]; intros H.
  - reflexivity.
  - change (list_sum_Z (map f (x :: l))) with (f x + list_sum_Z (map f l)).
    rewrite IH by (intros y Hy; apply H; now right).
    rewrite (H x) by now left.
    simpl length. lia.
Qed.

Lemma list_sum_Z_ext_in (A : Type) (f g : A -> Z) (l : list A) :
  (forall x, In x l -> f x = g x) ->
  list_sum_Z (map f l) = list_sum_Z (map g l).
Proof.
  induction l as [|x l IH]; intros H; [reflexivity|].
  simpl. rewrite IH by (intros y Hy; apply H; now right).
  rewrite (H x) by now left. reflexivity.
Qed.

Lemma list_sum_Z_le (A : Type) (f g : A -> Z) (l : list A) :
  (forall x, In x l -> f x <= g x) ->
  list_sum_Z (map f l) <= list_sum_Z (map g l).
Proof.
  induction l as [|x l IH]; intros H; simpl; [lia|].
  specialize (H x (or_introl eq_refl)) as Hx.
  assert (list_sum_Z (map f l) <= list_sum_Z (map g l))
    by (apply IH; intros y Hy; apply H; now right).
  lia.
Qed.

Lemma list_sum_Z_nonneg (l : list Z) :
  (forall x, In x l -> 0 <= x) -> 0 <= list_sum_Z l.
Proof.
  induction l as [|x l IH]; intros H; simpl; [lia|].
  specialize (H x (or_introl eq_refl)) as Hx.
  assert (0 <= list_sum_Z l) by (apply IH; intros y Hy; apply H; now right).
  lia.
Qed.

Lemma path_damage_nonneg (gs : GameState) (path : list Location) :
  0 <= unit_damage DESTRUCTOR -> 0 <= path_damage gs path.
Proof.
  intros Hd. rewrite path_damage_count_sum. unfold count_damage_sum.
  apply list_sum_Z_nonneg. intros x Hx.
  apply in_map_iff in Hx. destruct Hx as [p [<- _]].
  apply Z.mul_nonneg_nonneg; lia.
Qed.

Lemma path_damage_mono (gs gs' : GameState) (path : list Location) :
  0 <= unit_damage DESTRUCTOR ->
  (forall p, In p path ->
     (length (get_attackers gs p 0) <= length (get_attackers gs' p 0))%nat) ->
  path_damage gs path <= path_damage gs' path.
Proof.
  intros Hd Hle. rewrite !path_damage_count_sum. unfold count_damage_sum.
  apply list_sum_Z_le. intros p Hp. specialize (Hle p Hp).
  apply Z.mul_le_mono_nonneg_r; lia.
Qed.

(** *** Choosing the least damage *)

Lemma min_from_le_cur (cur : Z) (l : list Z) : min_from cur l <= cur.
Proof.
  revert cur; induction l as [|x l IH]; intros cur; simpl; [lia|].
  specialize (IH (if x <? cur then x else cur)).
  destruct (Z.ltb_spec x cur); lia.
Qed.

Lemma min_from_le_all (cur : Z) (l : list Z) (x : Z) :
  In x l -> min_from cur l <= x.
Proof.
  revert cur; induction l as [|y l IH]; intros cur Hin; simpl in *; [contradiction|].
  destruct Hin as [->|Hin].
  - pose proof (min_from_le_cur (if x <? cur then x else cur) l).
    destruct (Z.ltb_spec x cur); lia.
  - now apply IH.
Qed.

Lemma min_from_in (cur : Z) (l : list Z) : In (min_from cur l) (cur :: l).
Proof.
  revert cur; induction l as [|x l IH]; intros cur; simpl; [now left|].
  specialize (IH (if x <? cur then x else cur)).
  destruct (Z.ltb_spec x cur); simpl in IH; tauto.
Qed.

Lemma py_min_least (l : list Z) (m : Z) :
  In m l -> (forall x, In x l -> m <= x) -> py_min l = Returned m.
Proof.
  destruct l as [|a l]; intros Hin Hle; [contradiction|].
  simpl. f_equal.
  pose proof (min_from_in a l) as Hmem.
  pose proof (min_from_le_cur a l) as Hcur.
  assert (min_from a l <= m).
  { destruct Hin as [<-|Hin]; [exact Hcur | now apply min_from_le_all]. }
  specialize (Hle _ Hmem). lia.
Qed.

Lemma py_index_first (v : Z) (pre post : list Z) :
  ~ In v pre -> py_index v (pre ++ v :: post) = Returned (length pre).
Proof.
  induction pre as [|x pre IH]; intros Hn; simpl.
  - now rewrite Z.eqb_refl.
  - destruct (Z.eqb_spec x v) as [->|_].
    + exfalso. apply Hn. now left.
    + rewrite IH; [reflexivity|]. intros H. apply Hn. now right.
Qed.

Lemma py_getitem_middle (A : Type) (pre post : list A) (c : A) :
  py_getitem (pre ++ c :: post) (Z.of_nat (length pre)) = Returned c.
Proof.
  unfold py_getitem.
  destruct (Z.ltb_spec (Z.of_nat (length pre)) 0); [lia|].
  rewrite length_app. simpl length.
  destruct (Z.ltb_spec (Z.of_nat (length pre)) 0); [lia|].
  destruct (Z.leb_spec (Z.of_nat (length pre + S (length post))) (Z.of_nat (length pre))); [lia|].
  simpl. rewrite Nat2Z.id.
  rewrite nth_error_app2 by lia.
  now rewrite Nat.sub_diag.
Qed.

(** [least_damage_spawn_location] returns the first candidate whose
    damage estimate is the least one. *)
Lemma least_damage_first_least (gs : GameState) (pre post : list Location) (c : Location) :
  (forall l, In l pre -> risk gs c < risk gs l) ->
  (forall l, In l post -> risk gs c <= risk gs l) ->
  least_damage_spawn_location gs (pre ++ c :: post) = Returned c.
Proof.
  intros Hpre Hpost. unfold least_damage_spawn_location, damages_of.
  rewrite map_app. simpl map. fold (risk gs c).
  rewrite (py_min_least _ (risk gs c)).
  - rewrite py_index_first.
    + rewrite length_map. apply py_getitem_middle.
    + intros Hin. apply in_map_iff in Hin. destruct Hin as [l [Heq Hl]].
      specialize (Hpre l Hl). unfold risk in *. lia.
  - apply in_or_app. right. now left.
  - intros x Hx. apply in_app_or in Hx. destruct Hx as [Hx|[<-|Hx]].
    + apply in_map_iff in Hx. destruct Hx as [l [<- Hl]].
      specialize (Hpre l Hl). unfold risk in *. lia.
    + lia.
    + apply in_map_iff in Hx. destruct Hx as [l [<- Hl]].
      specialize (Hpost l Hl). exact Hpost.
Qed.

(** With two candidates: the second only when it is strictly safer. *)
Lemma least_damage_two (gs : GameState) (a b : Location) :
  least_damage_spawn_location gs [a; b]
  = Returned (if risk gs b <? risk gs a then b else a).
Proof.
  destruct (Z.ltb_spec (risk gs b) (risk gs a)) as [Hlt|Hge].
  - apply (least_damage_first_least gs [a] [] b).
    + intros l [<-|[]]. exact Hlt.
    + intros l [].
  - apply (least_damage_first_least gs [] [b] a).
    + intros l [].
    + intros l [<-|[]]. exact Hge.
Qed.

(** *** The stalling loop *)

Lemma same_attributes_refl (s : AlgoStrategy) : same_attributes s s.
Proof. repeat split. Qed.

Lemma same_attributes_trans (s1 s2 s3 : AlgoStrategy) :
  same_attributes s1 s2 -> same_attributes s2 s3 -> same_attributes s1 s3.
Proof.
  unfold same_attributes. intros (A1 & A2 & A3) (B1 & B2 & B3).
  repeat split; congruence.
Qed.

Lemma stall_loop_spec (fuel : nat) (count quarter : Z) (w w' : World) (o : outcome unit) :
  stall_loop fuel count quarter w = (o, w') ->
  same_attributes (self w) (self w')
  /\ exists more,
       calls w' = calls w ++ more
       /\ Forall (fun c => is_spawn_of SCRAMBLER c = true) more.
Proof.
  revert count w; induction fuel as [|fuel IH]; intros count w H.
  - inversion H; subst. split; [apply same_attributes_refl|].
    exists []. now rewrite app_nil_r.
  - cbn [stall_loop] in H.
    destruct ((count <? quarter) && (0 <? Z.of_nat (length deploy_locations))).
    2:{ inversion H; subst. split; [apply same_attributes_refl|].
        exists []. now rewrite app_nil_r. }
    unfold bind, draw, lift, spawn in H.
    destruct (randint (random_state (self w)) 0
                      (Z.of_nat (length deploy_locations) - 1)) as [v r].
    destruct (py_getitem deploy_locations v) as [loc|e].
    + apply IH in H. destruct H as [Hs [more [Hc Hall]]].
      split.
      * eapply same_attributes_trans; [|exact Hs]. repeat split.
      * exists (AttemptSpawn SCRAMBLER [loc] 1 :: more). split.
        -- rewrite Hc. simpl. now rewrite <- app_assoc.
        -- constructor; [reflexivity | exact Hall].
    + inversion H; subst. simpl.
      split; [repeat split|]. exists []. now rewrite app_nil_r.
Qed.

(** The fuel passed by [stall_with_scramblers] is enough: the loop ends
    on its own condition, and more fuel changes nothing. *)
Lemma stall_loop_more_fuel (fuel : nat) (count quarter : Z) (w : World) :
  (Z.to_nat (quarter - count) <= fuel)%nat ->
  stall_loop (S fuel) count quarter w = stall_loop fuel count quarter w.
Proof.
  revert count w; induction fuel as [|fuel IH]; intros count w Hfuel.
  - cbn [stall_loop].
    destruct (Z.ltb_spec count quarter); [lia | reflexivity].
  - change (stall_loop (S (S fuel)) count quarter w)
      with ((if (count <? quarter) && (0 <? Z.of_nat (length deploy_locations)) then
               deploy_index <- draw 0 (Z.of_nat (length deploy_locations) - 1) ;;
               deploy_location <- lift (py_getitem deploy_locations deploy_index) ;;
               spawn SCRAMBLER [deploy_location] 1 ;;;
               stall_loop (S fuel) (count + 1) quarter
             else ret tt) w).
    change (stall_loop (S fuel) count quarter w)
      with ((if (count <? quarter) && (0 <? Z.of_nat (length deploy_locations)) then
               deploy_index <- draw 0 (Z.of_nat (length deploy_locations) - 1) ;;
               deploy_location <- lift (py_getitem deploy_locations deploy_index) ;;
               spawn SCRAMBLER [deploy_location] 1 ;;;
               stall_loop fuel (count + 1) quarter
             else ret tt) w).
    destruct (Z.ltb_spec count quarter); [|reflexivity].
    cbn [andb].
    destruct (0 <? Z.of_nat (length deploy_locations)); [|reflexivity].
    unfold bind, draw, lift, spawn.
    destruct (randint (random_state (self w)) 0
                      (Z.of_nat (length deploy_locations) - 1)) as [v r].
    destruct (py_getitem deploy_locations v) as [loc|e]; [|reflexivity].
    apply IH. lia.
Qed.

(** *** The three branches of [funnel_strategy] *)

Lemma funnel_strategy_early (w w' : World) (o : outcome unit) :
  turn_number (game_state (prelude w)) < 3 ->
  funnel_strategy w = (o, w') ->
  same_attributes (self w) (self w')
  /\ exists more,
       calls w' = calls (prelude w) ++ more
       /\ Forall (fun c => is_spawn_of SCRAMBLER c = true) more.
Proof.
  intros Hturn H. rewrite funnel_strategy_prelude in H.
  unfold bind at 1 in H. unfold get_game_state at 1 in H. cbv beta iota in H.
  destruct (Z.ltb_spec (turn_number (game_state (prelude w))) 3); [|lia].
  unfold stall_with_scramblers, bind, get_game_state in H.
  apply stall_loop_spec in H. rewrite self_prelude in H. exact H.
Qed.

Lemma funnel_strategy_decision (w : World) :
  turn_number (game_state (prelude w)) = 3 ->
  funnel_strategy w = (Returned tt, decided (prelude w)).
Proof.
  intros Hturn. rewrite funnel_strategy_prelude.
  unfold bind at 1. unfold get_game_state at 1. cbv beta iota.
  rewrite Hturn. change (3 <? 3) with false. change (3 =? 3) with true.
  cbv beta iota.
  unfold bind at 1. unfold get_game_state at 1. cbv beta iota.
  unfold bind at 1. unfold lift at 1. unfold ping_spawn_location_options.
  rewrite least_damage_two. fold (best_of (game_state (prelude w))).
  assert (Hne : location_eqb (best_of (game_state (prelude w))) (2, 11) = false).
  { unfold best_of.
    destruct (risk (game_state (prelude w)) (24, 10) <? risk (game_state (prelude w)) (3, 10));
      reflexivity. }
  cbv beta iota delta [bind set_best_location get_self put_self read_best_location ret].
  cbn [self best_location]. rewrite Hne. reflexivity.
Qed.

Lemma funnel_strategy_late (w : World) :
  3 < turn_number (game_state (prelude w)) ->
  funnel_strategy w = offensive (fortify (prelude w)).
Proof.
  intros Hturn. rewrite funnel_strategy_prelude.
  unfold bind at 1. unfold get_game_state at 1. cbv beta iota.
  destruct (Z.ltb_spec (turn_number (game_state (prelude w))) 3); [lia|].
  destruct (Z.eqb_spec (turn_number (game_state (prelude w))) 3); [lia|].
  destruct (Z.gtb_spec (turn_number (game_state (prelude w))) 3); [|lia].
  unfold offensive, fortify, funnel_locations.
  cbv beta iota delta [bind get_self get_game_state read_best_location raise ret
                       build_additional_defenses build_better_tunnel build_defenses3].
  destruct (funnel_left (self (prelude w)));
    cbv beta iota delta [bind build_left_funnel build_right_funnel spawn];
    destruct (Qle_bool 10 _); try reflexivity;
    rewrite !self_emit;
    destruct (best_location (self (prelude w))); reflexivity.
Qed.

(** Turn numbers are integers: the three tests leave no fourth case. *)
Lemma funnel_strategy_cases (w : World) :
  turn_number (game_state (prelude w)) < 3
  \/ turn_number (game_state (prelude w)) = 3
  \/ 3 < turn_number (game_state (prelude w)).
Proof. lia. Qed.

Lemma calls_fortify (w : World) :
  calls (fortify w)
  = calls w ++ [AttemptSpawn ENCRYPTOR (funnel_locations (funnel_left (self w))) 1;
                AttemptSpawn DESTRUCTOR additional_locations_second 1;
                AttemptSpawn ENCRYPTOR tunnel_locations 1;
                AttemptSpawn DESTRUCTOR (row_locations 2 26 11) 1].
Proof.
  unfold fortify. rewrite !calls_emit. now rewrite <- !app_assoc.
Qed.

Lemma self_fortify (w : World) : self (fortify w) = self w.
Proof. reflexivity. Qed.

Lemma on_turn_eq (s : AlgoStrategy) (gs : GameState) :
  on_turn s gs
  = match funnel_strategy (init_world s gs) with
    | (Returned _, w) =>
        (Returned tt,
         {| self := self w; game_state := game_state w;
            calls := calls w ++ [SubmitTurn] |})
    | (Raised e, w) => (Raised e, w)
    end.
Proof.
  unfold on_turn, bind, submit_turn.
  destruct (funnel_strategy (init_world s gs)) as [[a|e] w]; reflexivity.
Qed.

(** *** What every turn does, whatever its number *)

Lemma funnel_strategy_frame (w w' : World) (o : outcome unit) :
  funnel_strategy w = (o, w') ->
  scored_on_locations (self w') = scored_on_locations (self w)
  /\ exists more, calls w' = calls (prelude w) ++ more.
Proof.
  intros H.
  destruct (funnel_strategy_cases w) as [Hlt|[Heq|Hgt]].
  - destruct (funnel_strategy_early w w' o Hlt H) as [(Hs & _ & _) [more [Hc _]]].
    split; [exact Hs | now exists more].
  - rewrite (funnel_strategy_decision w Heq) in H. inversion H; subst.
    split.
    + simpl. now rewrite self_prelude.
    + eexists. reflexivity.
  - rewrite (funnel_strategy_late w Hgt) in H. unfold offensive in H.
    destruct (Qle_bool 10 _).
    + destruct (best_location (self (fortify (prelude w)))) eqn:E;
        inversion H; subst.
      * rewrite self_emit, self_fortify, self_prelude. split; [reflexivity|].
        rewrite calls_emit, calls_fortify, <- app_assoc. eexists. reflexivity.
      * rewrite self_fortify, self_prelude. split; [reflexivity|].
        rewrite calls_fortify. eexists. reflexivity.
    + inversion H; subst.
      rewrite self_fortify, self_prelude. split; [reflexivity|].
      rewrite calls_fortify. eexists. reflexivity.
Qed.

Lemma on_turn_frame (s : AlgoStrategy) (gs : GameState) :
  scored_on_locations (self (snd (on_turn s gs))) = scored_on_locations s
  /\ exists more,
       turn_calls s gs
       = AttemptSpawn DESTRUCTOR destructor_locations_13 1
           :: map (fun l => AttemptSpawn DESTRUCTOR [build_location l] 1)
                  (scored_on_locations s)
           ++ more.
Proof.
  unfold turn_calls. rewrite on_turn_eq.
  destruct (funnel_strategy (init_world s gs)) as [o w] eqn:E.
  destruct (funnel_strategy_frame _ _ _ E) as [Hs [more Hc]].
  rewrite calls_prelude in Hc. simpl in Hc, Hs.
  destruct o as [a|e]; simpl; (split; [exact Hs|]).
  - exists (more ++ [SubmitTurn]). rewrite Hc. simpl. now rewrite <- app_assoc.
  - exists more. exact Hc.
Qed.

Lemma step_turn_log (s s' : AlgoStrategy) (gs : GameState) :
  step s (Turn gs) = Returned s' ->
  scored_on_locations s' = scored_on_locations s.
Proof.
  unfold step. intros H.
  destruct (on_turn_frame s gs) as [Hs _].
  destruct (on_turn s gs) as [[a|e] w]; inversion H; subst. exact Hs.
Qed.

(** *** The breach log *)

Lemma record_breaches (breaches : list Breach) (log : list Location) :
  fold_left record_breach breaches log
  = log ++ map breach_location (filter (fun b => negb (unit_owner_self b)) breaches).
Proof.
  revert log; induction breaches as [|b breaches IH]; intros log; simpl.
  - now rewrite app_nil_r.
  - rewrite IH. unfold record_breach.
    destruct (negb (unit_owner_self b)); simpl; [|reflexivity].
    now rewrite <- app_assoc.
Qed.

Lemma step_log (s s' : AlgoStrategy) (e : Event) :
  step s e = Returned s' ->
  scored_on_locations s' = scored_on_locations s ++ logged e.
Proof.
  destruct e as [gs|breaches]; intros H.
  - rewrite (step_turn_log _ _ _ H). simpl. now rewrite app_nil_r.
  - inversion H; subst. simpl. apply record_breaches.
Qed.

Lemma run_log (events : list Event) (s s' : AlgoStrategy) :
  run s events = Returned s' ->
  scored_on_locations s' = scored_on_locations s ++ flat_map logged events.
Proof.
  revert s; induction events as [|e events IH]; intros s H; simpl in *.
  - inversion H; subst. now rewrite app_nil_r.
  - destruct (step s e) as [s1|x] eqn:E; [|discriminate].
    rewrite (IH _ H), (step_log _ _ _ E). now rewrite <- app_assoc.
Qed.

Lemma run_app (a b : list Event) (s : AlgoStrategy) :
  run s (a ++ b)
  = match run s a with
    | Returned s1 => run s1 b
    | Raised x => Raised x
    end.
Proof.
  revert s; induction a as [|e a IH]; intros s; simpl; [reflexivity|].
  destruct (step s e); [apply IH | reflexivity].
Qed.

(** *** Claims about the risk estimate *)

(** C2, as amended: a candidate whose traced path is empty gets the risk
    score 0.  With a non-negative destructor damage no score is lower, so
    the candidate is neither excluded nor reported as an error:
    [least_damage_spawn_location] returns it whenever no earlier candidate
    also scores 0. *)
Theorem empty_path_scores_zero_and_is_chosen
    (gs : GameState) (pre post : list Location) (c : Location) :
  find_path_to_edge gs c = [] ->
  0 <= unit_damage DESTRUCTOR ->
  (forall l, In l pre -> risk gs l <> 0) ->
  risk gs c = 0
  /\ (forall l, risk gs c <= risk gs l)
  /\ least_damage_spawn_location gs (pre ++ c :: post) = Returned c.
Proof.
  intros Hpath Hd Hpre.
  assert (Hc : risk gs c = 0) by (unfold risk; now rewrite Hpath).
  assert (Hall : forall l, risk gs c <= risk gs l).
  { intros l. rewrite Hc. now apply path_damage_nonneg. }
  repeat split; trivial.
  apply least_damage_first_least.
  - intros l Hl. specialize (Hpre l Hl). specialize (Hall l). lia.
  - intros l _. apply Hall.
Qed.

(** C9: the risk score of an entry location is non-negative, and with the
    path fixed it does not decrease when defenders are added: if at every
    traversed location the attackers of the second board are those of the
    first and possibly more, the second score is at least the first. *)
Theorem risk_nonneg_and_monotone (gs gs' : GameState) (location : Location) :
  0 <= unit_damage DESTRUCTOR ->
  find_path_to_edge gs' location = find_path_to_edge gs location ->
  defenders_added gs gs' (find_path_to_edge gs location) ->
  0 <= risk gs location /\ risk gs location <= risk gs' location.
Proof.
  intros Hd Hpath Hadd. split.
  - now apply path_damage_nonneg.
  - unfold risk. rewrite Hpath. apply path_damage_mono; [exact Hd|].
    intros p Hp. destruct (Hadd p Hp) as [extra Hperm].
    rewrite (Permutation_length Hperm), length_app. lia.
Qed.

(** *** Claims about the breach log *)

(** C3, as amended: [on_action_frame] appends the location of every breach
    not owned by ourselves to the log as it is, without translation.  The
    offset is applied when the log is read: on the next planning pass
    [build_reactive_defense] issues one destructor placement three rows
    above the logged location.  The log is kept, so the same holds for
    the planning pass that follows any further turns and frames. *)
Theorem breach_logged_as_is_reinforced_three_above
    (s : AlgoStrategy) (breaches : list Breach) (gs : GameState) :
  scored_on_locations (on_action_frame s breaches)
  = scored_on_locations s
    ++ map breach_location (filter (fun b => negb (breach_owner b =? 1)) breaches)
  /\ forall b, In b breaches -> breach_owner b <> 1 ->
       In (breach_location b) (scored_on_locations (on_action_frame s breaches))
       /\ In (AttemptSpawn DESTRUCTOR
                 [(fst (breach_location b), snd (breach_location b) + 3)] 1)
             (turn_calls (on_action_frame s breaches) gs)
       /\ forall events s' gs',
            run (on_action_frame s breaches) events = Returned s' ->
            In (AttemptSpawn DESTRUCTOR
                  [(fst (breach_location b), snd (breach_location b) + 3)] 1)
               (turn_calls s' gs').
Proof.
  assert (Hlog : scored_on_locations (on_action_frame s breaches)
                 = scored_on_locations s
                   ++ map breach_location
                        (filter (fun b => negb (breach_owner b =? 1)) breaches))
    by apply record_breaches.
  split; [exact Hlog|].
  intros b Hb Howner.
  assert (Hin : In (breach_location b)
                   (scored_on_locations (on_action_frame s breaches))).
  { rewrite Hlog. apply in_or_app. right. apply in_map. apply filter_In.
    split; [exact Hb|]. now destruct (Z.eqb_spec (breach_owner b) 1). }
  assert (Hpass : forall s1 gs1,
             In (breach_location b) (scored_on_locations s1) ->
             In (AttemptSpawn DESTRUCTOR
                   [(fst (breach_location b), snd (breach_location b) + 3)] 1)
                (turn_calls s1 gs1)).
  { intros s1 gs1 H1.
    destruct (on_turn_frame s1 gs1) as [_ [more Hc]].
    rewrite Hc. right. apply in_or_app. left.
    change (fst (breach_location b), snd (breach_location b) + 3)
      with (build_location (breach_location b)).
    now apply (in_map (fun l => AttemptSpawn DESTRUCTOR [build_location l] 1)). }
  split; [exact Hin|]. split; [now apply Hpass|].
  intros events s' gs' Hrun. apply Hpass.
  rewrite (run_log _ _ _ Hrun). apply in_or_app. now left.
Qed.

(** C7: the breach log only grows.  Along any run of turns and action
    frames the final log is the initial log followed by the entries the
    frames added, so its length never decreases, and every added entry is
    the location of a breach whose owner is not ourselves. *)
Theorem breach_log_append_only (s s' : AlgoStrategy) (events : list Event) :
  run s events = Returned s' ->
  scored_on_locations s' = scored_on_locations s ++ flat_map logged events
  /\ (length (scored_on_locations s) <= length (scored_on_locations s'))%nat
  /\ forall l, In l (flat_map logged events) ->
       exists breaches b,
         In (ActionFrame breaches) events /\ In b breaches
         /\ breach_location b = l /\ breach_owner b <> 1.
Proof.
  intros H. pose proof (run_log _ _ _ H) as Hlog.
  split; [exact Hlog|]. split.
  - rewrite Hlog, length_app. lia.
  - intros l Hl. apply in_flat_map in Hl. destruct Hl as [e [He Hl]].
    destruct e as [gs|breaches]; [contradiction|].
    simpl in Hl. apply in_map_iff in Hl. destruct Hl as [b [Hb Hf]].
    apply filter_In in Hf. destruct Hf as [Hin Hown].
    exists breaches, b. repeat split; trivial.
    unfold unit_owner_self in Hown.
    destruct (Z.eqb_spec (breach_owner b) 1); [discriminate | assumption].
Qed.

(** *** The two definitions of [build_additional_defenses] *)

(** C8, as amended: the two definitions do not target the same locations.
    Each issues one destructor placement over its own list; every target
    of the second (columns 1 to 12 and their mirrors) is a target of the
    first (columns 1 to 26), and the first has exactly two more, (13, 12)
    and (14, 12). *)
Theorem additional_defenses_second_is_first_without_centre :
  (forall w, build_additional_defenses_first w
             = (Returned tt, emit DESTRUCTOR additional_locations_first 1 w))
  /\ (forall w, build_additional_defenses w
                = (Returned tt, emit DESTRUCTOR additional_locations_second 1 w))
  /\ (forall l, In l additional_locations_first
                <-> In l additional_locations_second \/ l = (13, 12) \/ l = (14, 12))
  /\ ~ In (13, 12) additional_locations_second
  /\ ~ In (14, 12) additional_locations_second.
Proof.
  split; [reflexivity|]. split; [reflexivity|]. split; [|split].
  - intros l. split.
    + intros H. vm_compute in H.
      repeat (destruct H as [<-|H]; [vm_compute; tauto|]). contradiction.
    + intros [H|[->| ->]].
      * vm_compute in H.
        repeat (destruct H as [<-|H]; [vm_compute; tauto|]). contradiction.
      * vm_compute. tauto.
      * vm_compute. tauto.
  - vm_compute. intros H.
    repeat (destruct H as [H|H]; [discriminate H|]). exact H.
  - vm_compute. intros H.
    repeat (destruct H as [H|H]; [discriminate H|]). exact H.
Qed.

(** *** With a lawful engine client *)

Section Lawful.

Context {L : GameLibLaws G}.

Lemma turn_number_reinforce (log : list Location) (w : World) :
  turn_number (game_state (reinforce log w)) = turn_number (game_state w).
Proof.
  revert w; induction log as [|l log IH]; intros w; [reflexivity|].
  rewrite reinforce_cons, IH. simpl. apply turn_number_attempt_spawn.
Qed.

Lemma turn_number_prelude (w : World) :
  turn_number (game_state (prelude w)) = turn_number (game_state w).
Proof.
  unfold prelude. rewrite turn_number_reinforce. simpl.
  apply turn_number_attempt_spawn.
Qed.

Lemma bits_reinforce (log : list Location) (w : World) :
  (get_resource_BITS (game_state (reinforce log w))
   == get_resource_BITS (game_state w))%Q.
Proof.
  revert w; induction log as [|l log IH]; intros w; [reflexivity|].
  rewrite reinforce_cons, IH. simpl.
  now apply bits_attempt_spawn_stationary.
Qed.

Lemma bits_prelude (w : World) :
  (get_resource_BITS (game_state (prelude w))
   == get_resource_BITS (game_state w))%Q.
Proof.
  unfold prelude. rewrite bits_reinforce. simpl.
  now apply bits_attempt_spawn_stationary.
Qed.

Lemma bits_fortify (w : World) :
  (get_resource_BITS (game_state (fortify w))
   == get_resource_BITS (game_state w))%Q.
Proof.
  unfold fortify. simpl.
  rewrite !bits_attempt_spawn_stationary by reflexivity. reflexivity.
Qed.

(** The pool the swarm step reads is the pool the turn started with. *)
Lemma pool_at_swarm (w : World) :
  Qle_bool 10 (get_resource_BITS (game_state (fortify (prelude w))))
  = Qle_bool 10 (get_resource_BITS (game_state w)).
Proof.
  apply Qleb_comp; [reflexivity|].
  rewrite bits_fortify. apply bits_prelude.
Qed.

Lemma on_turn_decision (s : AlgoStrategy) (gs : GameState) :
  turn_number gs = 3 ->
  on_turn s gs
  = (Returned tt,
     {| self := self (decided (prelude (init_world s gs)));
        game_state := game_state (decided (prelude (init_world s gs)));
        calls := calls (decided (prelude (init_world s gs))) ++ [SubmitTurn] |}).
Proof.
  intros Hturn. rewrite on_turn_eq, funnel_strategy_decision; [reflexivity|].
  now rewrite turn_number_prelude.
Qed.

Lemma on_turn_late (s : AlgoStrategy) (gs : GameState) :
  3 < turn_number gs ->
  on_turn s gs
  = let w := fortify (prelude (init_world s gs)) in
    if Qle_bool 10 (get_resource_BITS gs) then
      match best_location s with
      | Some l =>
          (Returned tt,
           {| self := s;
              game_state := attempt_spawn (game_state w) PING [l] 1000;
              calls := calls w ++ [AttemptSpawn PING [l] 1000; SubmitTurn] |})
      | None => (Raised AttributeError, w)
      end
    else
      (Returned tt,
       {| self := s; game_state := game_state w;
          calls := calls w ++ [SubmitTurn] |}).
Proof.
  intros Hturn. rewrite on_turn_eq, funnel_strategy_late
    by (now rewrite turn_number_prelude).
  unfold offensive. rewrite pool_at_swarm. cbn [game_state init_world].
  rewrite self_fortify, self_prelude. cbn [self init_world].
  destruct (Qle_bool 10 (get_resource_BITS gs)).
  - destruct (best_location s); [|reflexivity].
    rewrite self_emit, calls_emit, self_fortify, self_prelude, <- app_assoc.
    reflexivity.
  - rewrite self_fortify, self_prelude. reflexivity.
Qed.

(** *** Steps of a match *)

Lemma step_early (s s' : AlgoStrategy) (gs : GameState) :
  turn_number gs < 3 ->
  step s (Turn gs) = Returned s' ->
  same_attributes s s'.
Proof.
  intros Hturn H. unfold step in H. rewrite on_turn_eq in H.
  destruct (funnel_strategy (init_world s gs)) as [o w] eqn:E.
  apply funnel_strategy_early in E; [|now rewrite turn_number_prelude].
  destruct E as [Hs _].
  destruct o; inversion H; subst. exact Hs.
Qed.

Lemma step_decision (s : AlgoStrategy) (gs : GameState) :
  turn_number gs = 3 ->
  step s (Turn gs)
  = Returned {| scored_on_locations := scored_on_locations s;
                funnel_left := false;
                best_location :=
                  Some (best_of (game_state (prelude (init_world s gs))));
                random_state := random_state s |}.
Proof.
  intros Hturn. unfold step. rewrite (on_turn_decision s gs Hturn).
  cbn [self decided]. now rewrite self_prelude.
Qed.

Lemma step_late (s : AlgoStrategy) (gs : GameState) :
  3 < turn_number gs ->
  step s (Turn gs)
  = if Qle_bool 10 (get_resource_BITS gs) then
      match best_location s with
      | Some _ => Returned s
      | None => Raised AttributeError
      end
    else Returned s.
Proof.
  intros Hturn. unfold step. rewrite (on_turn_late s gs Hturn). cbv zeta.
  destruct (Qle_bool 10 (get_resource_BITS gs)); [|reflexivity].
  destruct (best_location s); reflexivity.
Qed.

Lemma turn_calls_late (s : AlgoStrategy) (gs : GameState) :
  3 < turn_number gs ->
  turn_calls s gs
  = AttemptSpawn DESTRUCTOR destructor_locations_13 1
      :: map (fun l => AttemptSpawn DESTRUCTOR [build_location l] 1)
             (scored_on_locations s)
      ++ [AttemptSpawn ENCRYPTOR (funnel_locations (funnel_left s)) 1;
          AttemptSpawn DESTRUCTOR additional_locations_second 1;
          AttemptSpawn ENCRYPTOR tunnel_locations 1;
          AttemptSpawn DESTRUCTOR (row_locations 2 26 11) 1]
      ++ swarm_calls s gs.
Proof.
  intros Hturn. unfold turn_calls, swarm_calls.
  rewrite (on_turn_late s gs Hturn). cbv zeta.
  assert (Hc : calls (fortify (prelude (init_world s gs)))
               = AttemptSpawn DESTRUCTOR destructor_locations_13 1
                   :: map (fun l => AttemptSpawn DESTRUCTOR [build_location l] 1)
                          (scored_on_locations s)
                   ++ [AttemptSpawn ENCRYPTOR (funnel_locations (funnel_left s)) 1;
                       AttemptSpawn DESTRUCTOR additional_locations_second 1;
                       AttemptSpawn ENCRYPTOR tunnel_locations 1;
                       AttemptSpawn DESTRUCTOR (row_locations 2 26 11) 1]).
  { rewrite calls_fortify, calls_prelude, self_prelude. reflexivity. }
  destruct (Qle_bool 10 (get_resource_BITS gs)).
  - destruct (best_location s); cbn [snd calls]; rewrite Hc.
    + simpl. now rewrite <- app_assoc.
    + reflexivity.
  - cbn [snd calls]. rewrite Hc. simpl. now rewrite <- app_assoc.
Qed.

(** A swarm call of a late turn can only come from the closing step. *)
Lemma ping_in_turn_calls_late
    (s : AlgoStrategy) (gs : GameState) (locs : list Location) (n : Z) :
  3 < turn_number gs ->
  In (AttemptSpawn PING locs n) (turn_calls s gs)
  <-> In (AttemptSpawn PING locs n) (swarm_calls s gs).
Proof.
  intros Hturn. rewrite (turn_calls_late s gs Hturn). split.
  - intros [H|H]; [discriminate H|].
    apply in_app_or in H. destruct H as [H|H].
    + apply in_map_iff in H. destruct H as [l [H _]]. discriminate H.
    + apply in_app_or in H. destruct H as [H|H]; [|exact H].
      simpl in H. repeat (destruct H as [H|H]; [discriminate H|]). contradiction.
  - intros H. right. apply in_or_app. right. apply in_or_app. now right.
Qed.

Lemma same_attributes_commitment (s s' : AlgoStrategy) :
  same_attributes s s' -> same_commitment s s'.
Proof. intros (_ & A & B). now split. Qed.

Lemma step_later (s : AlgoStrategy) (e : Event) (l : Location) :
  later_event e ->
  best_location s = Some l ->
  exists s', step s e = Returned s' /\ same_commitment s s'.
Proof.
  intros He Hbest. destruct e as [gs|breaches].
  - exists s. rewrite (step_late s gs He), Hbest.
    split; [now destruct (Qle_bool 10 _) | now split].
  - eexists. split; [reflexivity | now split].
Qed.

Lemma run_later (events : list Event) (s : AlgoStrategy) (l : Location) :
  Forall later_event events ->
  best_location s = Some l ->
  exists s', run s events = Returned s' /\ same_commitment s s'.
Proof.
  revert s; induction events as [|e events IH]; intros s Hall Hbest.
  - exists s. split; [reflexivity | now split].
  - inversion Hall as [|? ? He Hrest]; subst.
    destruct (step_later s e l He Hbest) as [s1 [Hstep [Hf Hb]]].
    destruct (IH s1 Hrest) as [s' [Hrun [Hf' Hb']]]; [congruence|].
    exists s'. simpl. rewrite Hstep. split; [exact Hrun|].
    split; congruence.
Qed.

Lemma best_of_candidates (gs : GameState) :
  best_of gs = (3, 10) \/ best_of gs = (24, 10).
Proof.
  unfold best_of. destruct (risk gs (24, 10) <? risk gs (3, 10)); tauto.
Qed.

Lemma step_not_decision (s s' : AlgoStrategy) (e : Event) :
  ~ is_turn 3 e ->
  step s e = Returned s' ->
  same_commitment s s'.
Proof.
  intros He H. destruct e as [gs|breaches].
  - simpl in He.
    destruct (Z.lt_trichotomy (turn_number gs) 3) as [Hlt|[Heq|Hgt]].
    + apply same_attributes_commitment. eapply step_early; eassumption.
    + contradiction.
    + rewrite (step_late s gs Hgt) in H.
      destruct (Qle_bool 10 _); [destruct (best_location s)|];
        inversion H; subst; now split.
  - inversion H; subst. now split.
Qed.

Lemma run_not_decision (events : list Event) (s s' : AlgoStrategy) :
  Forall (fun e => ~ is_turn 3 e) events ->
  run s events = Returned s' ->
  same_commitment s s'.
Proof.
  revert s; induction events as [|e events IH]; intros s Hall H; simpl in H.
  - inversion H; subst. now split.
  - inversion Hall as [|? ? He Hrest]; subst.
    destruct (step s e) as [s1|x] eqn:E; [|discriminate].
    destruct (step_not_decision _ _ _ He E) as [A B].
    destruct (IH _ Hrest H) as [A' B'].
    split; congruence.
Qed.

Lemma step_chosen (s s' : AlgoStrategy) (e : Event) :
  step s e = Returned s' ->
  chosen s \/ is_turn 3 e ->
  chosen s'.
Proof.
  intros H Hor. destruct e as [gs|breaches].
  - destruct (Z.eq_dec (turn_number gs) 3) as [Heq|Hne].
    + rewrite (step_decision s gs Heq) in H. inversion H; subst.
      unfold chosen. simpl.
      destruct (best_of_candidates (game_state (prelude (init_world s gs))))
        as [-> | ->]; tauto.
    + destruct Hor as [Hc|Hc]; [|contradiction].
      destruct (step_not_decision s s' (Turn gs) Hne H) as [_ Hb].
      unfold chosen in *. now rewrite Hb.
  - destruct Hor as [Hc|[]]. inversion H; subst. exact Hc.
Qed.

Lemma run_chosen (events : list Event) (s s' : AlgoStrategy) :
  run s events = Returned s' ->
  chosen s \/ Exists (is_turn 3) events ->
  chosen s'.
Proof.
  revert s; induction events as [|e events IH]; intros s H Hor; simpl in H.
  - inversion H; subst. destruct Hor as [Hc|Hex]; [exact Hc | inversion Hex].
  - destruct (step s e) as [s1|x] eqn:E; [|discriminate].
    destruct Hor as [Hc|Hex].
    + apply (IH s1 H). left. eapply step_chosen; eauto.
    + inversion Hex as [? ? He|? ? Hrest]; subst.
      * apply (IH s1 H). left. eapply step_chosen; eauto.
      * apply (IH s1 H). now right.
Qed.

(** *** Claims about the funnel commitment and the swarm *)

(** C4: the risk score of an entry location is the sum, over the locations
    of its traced path, of the number of attackers of the location times
    the configured destructor damage; the attackers being destructors,
    that is the sum of each attacker's own configured damage. *)
Theorem risk_is_attacker_damage_sum (gs : GameState) (location : Location) :
  risk gs location = count_damage_sum gs (find_path_to_edge gs location)
  /\ risk gs location = own_damage_sum gs (find_path_to_edge gs location).
Proof.
  split; [apply path_damage_count_sum|].
  unfold risk. rewrite path_damage_count_sum.
  unfold count_damage_sum, own_damage_sum.
  apply list_sum_Z_ext_in. intros p _. symmetry.
  rewrite (list_sum_Z_const _ (fun u => unit_damage (unit_type u))
                            (unit_damage DESTRUCTOR)); [reflexivity|].
  intros u Hu. now rewrite (attackers_are_destructors gs p 0 u Hu).
Qed.

(** C5: once the decision turn has run, the side flag and the chosen spawn
    location stay as that turn left them through any later turns and
    action frames; every later turn returns, and builds the funnel of the
    committed side. *)
Theorem commitment_fixed_after_decision
    (s0 : AlgoStrategy) (gs3 : GameState) (events : list Event) :
  turn_number gs3 = 3 ->
  Forall later_event events ->
  exists s3 sN,
    step s0 (Turn gs3) = Returned s3
    /\ chosen s3
    /\ run s3 events = Returned sN
    /\ same_commitment s3 sN
    /\ forall before gs after,
         events = before ++ Turn gs :: after ->
         exists s,
           run s3 before = Returned s
           /\ same_commitment s3 s
           /\ fst (on_turn s gs) = Returned tt
           /\ In (AttemptSpawn ENCRYPTOR (funnel_locations (funnel_left s3)) 1)
                 (turn_calls s gs).
Proof.
  intros Hturn Hall.
  pose proof (step_decision s0 gs3 Hturn) as Hstep.
  set (s3 := {| scored_on_locations := scored_on_locations s0;
                funnel_left := false;
                best_location :=
                  Some (best_of (game_state (prelude (init_world s0 gs3))));
                random_state := random_state s0 |}) in *.
  assert (Hbest : best_location s3
                  = Some (best_of (game_state (prelude (init_world s0 gs3)))))
    by reflexivity.
  destruct (run_later events s3 _ Hall Hbest) as [sN [Hrun Hsame]].
  exists s3, sN. split; [exact Hstep|].
  split; [eapply step_chosen; [exact Hstep | now right]|].
  split; [exact Hrun|]. split; [exact Hsame|].
  intros before gs after Heq. subst events.
  apply Forall_app in Hall. destruct Hall as [Hbefore Hrest].
  inversion Hrest as [|? ? Hgs _]; subst. simpl in Hgs.
  destruct (run_later before s3 _ Hbefore Hbest) as [s [Hrun' [Hf Hb]]].
  exists s. split; [exact Hrun'|]. split; [now split|]. split.
  - rewrite (on_turn_late s gs Hgs). cbv zeta. rewrite Hb, Hbest.
    now destruct (Qle_bool 10 _).
  - rewrite (turn_calls_late s gs Hgs), Hf.
    right. apply in_or_app. right. now left.
Qed.

(** C6: on a turn past 3 with the spawn location committed, the call
    [attempt_spawn(PING, best_location, 1000)] is issued exactly when the
    mobile-spawn pool is at least 10, and no other PING spawn is ever
    issued: none with a pool of 9, one of 1000 with a pool of 10. *)
Theorem swarm_iff_pool_at_least_10
    (s : AlgoStrategy) (gs : GameState) (loc : Location) :
  3 < turn_number gs ->
  best_location s = Some loc ->
  (In (AttemptSpawn PING [loc] 1000) (turn_calls s gs)
   <-> (10 <= get_resource_BITS gs)%Q)
  /\ (forall locs n,
        In (AttemptSpawn PING locs n) (turn_calls s gs) ->
        locs = [loc] /\ n = 1000).
Proof.
  intros Hturn Hbest. split.
  - rewrite (ping_in_turn_calls_late s gs _ _ Hturn).
    unfold swarm_calls. rewrite Hbest, <- Qle_bool_iff.
    destruct (Qle_bool 10 (get_resource_BITS gs)); simpl.
    + split; [reflexivity | tauto].
    + split; [|discriminate]. intros [H|[]]. discriminate H.
  - intros locs n H. apply (ping_in_turn_calls_late s gs _ _ Hturn) in H.
    unfold swarm_calls in H. rewrite Hbest in H.
    destruct (Qle_bool 10 (get_resource_BITS gs)); simpl in H.
    + destruct H as [H|[H|[]]]; [|discriminate H]. inversion H. now split.
    + destruct H as [H|[]]. discriminate H.
Qed.

(** C10, as amended: as long as no turn 3 has been processed the spawn
    location stays unassigned.  A turn past 3 then never issues a PING
    spawn: with a pool of at least 10 the swarm step reads the unassigned
    attribute and the planning fails with an attribute error, with a pool
    below 10 the step is skipped and the turn returns.  Conversely, after
    any run that processed a turn 3, the spawn location is one of the two
    candidates, (3, 10) or (24, 10). *)
Theorem spawn_location_assigned_only_by_decision_turn :
  (forall seed events s gs,
      Forall (fun e => ~ is_turn 3 e) events ->
      run (on_game_start seed) events = Returned s ->
      3 < turn_number gs ->
      best_location s = None
      /\ (forall locs n, ~ In (AttemptSpawn PING locs n) (turn_calls s gs))
      /\ ((10 <= get_resource_BITS gs)%Q ->
          fst (on_turn s gs) = Raised AttributeError)
      /\ ((get_resource_BITS gs < 10)%Q ->
          fst (on_turn s gs) = Returned tt))
  /\ (forall s events s',
        Exists (is_turn 3) events ->
        run s events = Returned s' ->
        best_location s' = Some (3, 10) \/ best_location s' = Some (24, 10)).
Proof.
  split.
  - intros seed events s gs Hall Hrun Hturn.
    destruct (run_not_decision _ _ _ Hall Hrun) as [_ Hb]. simpl in Hb.
    split; [exact Hb|]. split; [|split].
    + intros locs n H. apply (ping_in_turn_calls_late s gs _ _ Hturn) in H.
      unfold swarm_calls in H. rewrite Hb in H.
      destruct (Qle_bool 10 _); simpl in H; [contradiction|].
      destruct H as [H|[]]. discriminate H.
    + intros Hpool. apply Qle_bool_iff in Hpool.
      rewrite (on_turn_late s gs Hturn). cbv zeta. now rewrite Hpool, Hb.
    + intros Hpool. rewrite (on_turn_late s gs Hturn). cbv zeta.
      destruct (Qle_bool 10 (get_resource_BITS gs)) eqn:E; [|reflexivity].
      apply Qle_bool_iff in E. exfalso. exact (Qlt_not_le _ _ Hpool E).
  - intros s events s' Hex Hrun.
    apply (run_chosen events s s' Hrun). now right.
Qed.

(** Whatever the two risk scores, the decision turn leaves the side flag
    at [False] and builds the right funnel: no candidate equals [[2, 11]]. *)
Lemma decision_turn_commits_right (s : AlgoStrategy) (gs : GameState) :
  turn_number gs = 3 ->
  fst (on_turn s gs) = Returned tt
  /\ funnel_left (self (snd (on_turn s gs))) = false
  /\ In (AttemptSpawn ENCRYPTOR right_funnel_locations 1) (turn_calls s gs).
Proof.
  intros Hturn. unfold turn_calls. rewrite (on_turn_decision s gs Hturn).
  split; [reflexivity|]. split; [reflexivity|].
  cbn [snd calls decided]. apply in_or_app. left. apply in_or_app. right.
  now left.
Qed.

End Lawful.

End Properties.

(** ** The Python helpers on concrete inputs *)

Example py_range_1_4 : py_range 1 4 = [1; 2; 3].
Proof. reflexivity. Qed.

Example py_range_empty : py_range 5 5 = [].
Proof. reflexivity. Qed.

Example py_min_first_of_equals : py_min [4; 2; 7; 2] = Returned 2.
Proof. reflexivity. Qed.

Example py_min_empty : py_min [] = Raised ValueError.
Proof. reflexivity. Qed.

Example py_index_first_occurrence : py_index 2 [4; 2; 7; 2] = Returned 1%nat.
Proof. reflexivity. Qed.

Example py_index_absent : py_index 5 [4; 2] = Raised ValueError.
Proof. reflexivity. Qed.

Example py_getitem_negative : py_getitem [(9, 4); (18, 4)] (-1) = Returned (18, 4).
Proof. reflexivity. Qed.

Example py_getitem_out_of_range :
  py_getitem [(9, 4); (18, 4)] 2 = Raised IndexError.
Proof. reflexivity. Qed.

Example destructor_locations_13_value :
  destructor_locations_13
  = [(0, 13); (1, 13); (2, 13); (4, 13); (5, 13); (7, 13); (8, 13); (9, 13);
     (11, 13); (13, 13); (14, 13); (16, 13); (18, 13); (19, 13); (20, 13);
     (22, 13); (23, 13); (25, 13); (26, 13); (27, 13)].
Proof. reflexivity. Qed.

Example additional_locations_second_value :
  additional_locations_second
  = [(1, 12); (26, 12); (2, 12); (25, 12); (4, 12); (23, 12); (5, 12); (22, 12);
     (7, 12); (20, 12); (8, 12); (19, 12); (9, 12); (18, 12); (11, 12); (16, 12)].
Proof. reflexivity. Qed.

Example additional_locations_first_value :
  additional_locations_first
  = [(1, 12); (26, 12); (2, 12); (25, 12); (4, 12); (23, 12); (5, 12); (22, 12);
     (7, 12); (20, 12); (8, 12); (19, 12); (9, 12); (18, 12); (11, 12); (16, 12);
     (13, 12); (14, 12); (14, 12); (13, 12); (16, 12); (11, 12); (18, 12); (9, 12);
     (19, 12); (8, 12); (20, 12); (7, 12); (22, 12); (5, 12); (23, 12); (4, 12);
     (25, 12); (2, 12); (26, 12); (1, 12)].
Proof. reflexivity. Qed.

(** ** The concrete arena is a lawful client *)

Import Arena.

Lemma arena_laws : GameLibLaws Arena.lib.
Proof.
  split.
  - intros gs u locs n. simpl. unfold place.
    destruct (is_stationary u); [reflexivity|].
    destruct (Qle_bool _ _); reflexivity.
  - intros gs u locs n Hu. simpl. unfold place. rewrite Hu. reflexivity.
  - intros gs location player u Hu. simpl in Hu. unfold attackers in Hu.
    apply filter_In in Hu. destruct Hu as [_ Hu].
    destruct (unit_type u); simpl in Hu; try discriminate. reflexivity.
Defined.

(** A stalling turn: with a pool of 5 the loop runs [5 // 4 + 1 = 2]
    times. *)
Example stalling_turn_calls :
  turn_calls start (empty_board 1 5)
  = [AttemptSpawn DESTRUCTOR destructor_locations_13 1;
     AttemptSpawn SCRAMBLER [(9, 4)] 1;
     AttemptSpawn SCRAMBLER [(18, 4)] 1;
     SubmitTurn].
Proof. vm_compute. reflexivity. Qed.

(** A turn past 3 on a committed instance with a pool of 10. *)
Example swarming_turn_calls :
  turn_calls committed (empty_board 4 10)
  = [AttemptSpawn DESTRUCTOR destructor_locations_13 1;
     AttemptSpawn DESTRUCTOR [(10, 5)] 1;
     AttemptSpawn ENCRYPTOR right_funnel_locations 1;
     AttemptSpawn DESTRUCTOR additional_locations_second 1;
     AttemptSpawn ENCRYPTOR tunnel_locations 1;
     AttemptSpawn DESTRUCTOR (row_locations 2 26 11) 1;
     AttemptSpawn PING [(3, 10)] 1000;
     SubmitTurn].
Proof. vm_compute. reflexivity. Qed.

(** ** The decision turn on concrete boards *)

(** C1: on the decision turn the two candidates (3, 10) and (24, 10) are
    scored and the lower score, the first on a tie, becomes the spawn
    location; the funnel side does not follow it.  On a board without
    defenders both scores are 0 and the spawn location is the first (left)
    candidate, yet the side flag is set to [False] and the right funnel is
    built, not the left one; the same side is committed when the second
    candidate is the safer one. *)
Theorem decision_turn_side_ignores_choice :
  risk (empty_board 3 5) (3, 10) = 0
  /\ risk (empty_board 3 5) (24, 10) = 0
  /\ fst (on_turn start (empty_board 3 5)) = Returned tt
  /\ best_location (self (snd (on_turn start (empty_board 3 5)))) = Some (3, 10)
  /\ funnel_left (self (snd (on_turn start (empty_board 3 5)))) = false
  /\ In (AttemptSpawn ENCRYPTOR right_funnel_locations 1)
        (turn_calls start (empty_board 3 5))
  /\ ~ In (AttemptSpawn ENCRYPTOR left_funnel_locations 1)
          (turn_calls start (empty_board 3 5))
  /\ risk (guarded_left 3 5) (3, 10) = 48
  /\ risk (guarded_left 3 5) (24, 10) = 0
  /\ best_location (self (snd (on_turn start (guarded_left 3 5)))) = Some (24, 10)
  /\ funnel_left (self (snd (on_turn start (guarded_left 3 5)))) = false.
Proof.
  repeat split; try (vm_compute; reflexivity).
  - vm_compute. tauto.
  - vm_compute. intros H.
    repeat (destruct H as [H|H]; [discriminate H|]). exact H.
Qed.

(** ** Counterexamples *)

(** C2 fails as stated: with the left entry walled in (empty path) and the
    right lane guarded, the empty-path candidate is the one selected and
    committed. *)
Lemma empty_path_candidate_is_selected :
  find_path_to_edge (blocked_left 3 5) (3, 10) = []
  /\ risk (blocked_left 3 5) (3, 10) = 0
  /\ risk (blocked_left 3 5) (24, 10) = 48
  /\ least_damage_spawn_location (blocked_left 3 5) ping_spawn_location_options
     = Returned (3, 10)
  /\ best_location (self (snd (on_turn start (blocked_left 3 5)))) = Some (3, 10).
Proof. repeat split; vm_compute; reflexivity. Qed.

(** C3 fails as stated: a breach at (10, 2) by the opponent puts (10, 2)
    in the log, not (10, 5). *)
Lemma breach_is_logged_untranslated :
  scored_on_locations (on_action_frame start [mkBreach (10, 2) 2]) = [(10, 2)]
  /\ ~ In (10, 5) (scored_on_locations (on_action_frame start [mkBreach (10, 2) 2])).
Proof.
  split; [reflexivity|]. simpl. intros [H|[]]. discriminate H.
Qed.

(** C8 fails as stated: (13, 12) is a target of the first definition and
    not of the second. *)
Lemma centre_column_only_in_first :
  In (13, 12) additional_locations_first
  /\ ~ In (13, 12) additional_locations_second.
Proof.
  split.
  - vm_compute. tauto.
  - vm_compute. intros H.
    repeat (destruct H as [H|H]; [discriminate H|]). exact H.
Qed.

(** C10 fails as stated: turn 4 with a pool of 9 and no turn 3 before it
    returns; nothing reads the unassigned spawn location. *)
Lemma late_turn_without_decision_returns :
  ~ is_turn 3 (Turn (empty_board 4 9))
  /\ 3 < turn_number (empty_board 4 9)
  /\ best_location start = None
  /\ fst (on_turn start (empty_board 4 9)) = Returned tt
  /\ run start [Turn (empty_board 4 9)] = Returned start.
Proof.
  split; [simpl; lia|]. split; [simpl; lia|].
  repeat split; vm_compute; reflexivity.
Qed.

(** ** The theorems at concrete inputs *)

Lemma empty_path_scores_zero_and_is_chosen_witness :
  find_path_to_edge (blocked_left 3 5) (3, 10) = []
  /\ 0 <= unit_damage DESTRUCTOR
  /\ (forall l, In l [] -> risk (blocked_left 3 5) l <> 0)
  /\ (risk (blocked_left 3 5) (3, 10) = 0
      /\ (forall l, risk (blocked_left 3 5) (3, 10) <= risk (blocked_left 3 5) l)
      /\ least_damage_spawn_location (blocked_left 3 5) ([] ++ (3, 10) :: [(24, 10)])
         = Returned (3, 10)).
Proof.
  split; [reflexivity|]. split; [simpl; lia|].
  split; [intros l []|].
  apply (empty_path_scores_zero_and_is_chosen (G := Arena.lib) (blocked_left 3 5) [] [(24, 10)] (3, 10)).
  - reflexivity.
  - simpl; lia.
  - intros l [].
Defined.

Lemma risk_nonneg_and_monotone_witness :
  0 <= unit_damage DESTRUCTOR
  /\ find_path_to_edge (guarded_right 3 5) (24, 10)
     = find_path_to_edge (empty_board 3 5) (24, 10)
  /\ defenders_added (empty_board 3 5) (guarded_right 3 5)
                     (find_path_to_edge (empty_board 3 5) (24, 10))
  /\ (0 <= risk (empty_board 3 5) (24, 10)
      /\ risk (empty_board 3 5) (24, 10) <= risk (guarded_right 3 5) (24, 10)).
Proof.
  assert (Hadd : defenders_added (empty_board 3 5) (guarded_right 3 5)
                   (find_path_to_edge (empty_board 3 5) (24, 10))).
  { intros p _. exists (@get_attackers Arena.lib (guarded_right 3 5) p 0).
    simpl. rewrite app_nil_r. apply Permutation_refl. }
  split; [simpl; lia|]. split; [reflexivity|]. split; [exact Hadd|].
  apply (risk_nonneg_and_monotone (G := Arena.lib) (empty_board 3 5) (guarded_right 3 5) (24, 10)).
  - simpl; lia.
  - reflexivity.
  - exact Hadd.
Defined.

Lemma breach_logged_as_is_reinforced_three_above_witness :
  In (mkBreach (10, 2) 2) [mkBreach (10, 2) 2]
  /\ breach_owner (mkBreach (10, 2) 2) <> 1
  /\ scored_on_locations (on_action_frame start [mkBreach (10, 2) 2]) = [(10, 2)]
  /\ In (10, 2) (scored_on_locations (on_action_frame start [mkBreach (10, 2) 2]))
  /\ In (AttemptSpawn DESTRUCTOR [(10, 5)] 1)
        (turn_calls (on_action_frame start [mkBreach (10, 2) 2]) (empty_board 1 5))
  /\ run (on_action_frame start [mkBreach (10, 2) 2])
         [Turn (empty_board 1 5); ActionFrame [mkBreach (11, 2) 2];
          Turn (empty_board 2 6)]
     = Returned {| scored_on_locations := [(10, 2); (11, 2)];
                   funnel_left := true;
                   best_location := None;
                   random_state := 4%nat |}
  /\ In (AttemptSpawn DESTRUCTOR [(10, 5)] 1)
        (turn_calls {| scored_on_locations := [(10, 2); (11, 2)];
                       funnel_left := true;
                       best_location := None;
                       random_state := 4%nat |}
                    (guarded_left 3 5)).
Proof.
  assert (Hrun : run (on_action_frame start [mkBreach (10, 2) 2])
                     [Turn (empty_board 1 5); ActionFrame [mkBreach (11, 2) 2];
                      Turn (empty_board 2 6)]
                 = Returned {| scored_on_locations := [(10, 2); (11, 2)];
                               funnel_left := true;
                               best_location := None;
                               random_state := 4%nat |})
    by (vm_compute; reflexivity).
  assert (Hb : In (mkBreach (10, 2) 2) [mkBreach (10, 2) 2]) by (now left).
  assert (Ho : breach_owner (mkBreach (10, 2) 2) <> 1) by (simpl; lia).
  split; [exact Hb|]. split; [exact Ho|].
  split;
    [exact (proj1 (breach_logged_as_is_reinforced_three_above (G := Arena.lib)
                     start [mkBreach (10, 2) 2] (empty_board 1 5)))|].
  destruct (proj2 (breach_logged_as_is_reinforced_three_above (G := Arena.lib)
                     start [mkBreach (10, 2) 2] (empty_board 1 5))
                  (mkBreach (10, 2) 2) Hb Ho) as (Hin & Hnext & Hlater).
  split; [exact Hin|]. split; [exact Hnext|]. split; [exact Hrun|].
  exact (Hlater _ _ (guarded_left 3 5) Hrun).
Defined.

Lemma breach_log_append_only_witness :
  run start [ActionFrame [mkBreach (10, 2) 2; mkBreach (20, 27) 1];
             Turn (empty_board 4 9);
             ActionFrame [mkBreach (11, 2) 2]]
  = Returned {| scored_on_locations := [(10, 2); (11, 2)];
                funnel_left := true;
                best_location := None;
                random_state := 0%nat |}
  /\ [(10, 2); (11, 2)] = [] ++ [(10, 2); (11, 2)]
  /\ (0 <= 2)%nat.
Proof.
  assert (Hrun :
    run start [ActionFrame [mkBreach (10, 2) 2; mkBreach (20, 27) 1];
               Turn (empty_board 4 9);
               ActionFrame [mkBreach (11, 2) 2]]
    = Returned {| scored_on_locations := [(10, 2); (11, 2)];
                  funnel_left := true;
                  best_location := None;
                  random_state := 0%nat |}) by (vm_compute; reflexivity).
  split; [exact Hrun|].
  destruct (breach_log_append_only (G := Arena.lib) _ _ _ Hrun) as [Hlog [Hlen _]].
  split; [exact Hlog | exact Hlen].
Defined.

Lemma risk_is_attacker_damage_sum_witness :
  GameLibLaws Arena.lib
  /\ risk (guarded_right 3 5) (24, 10) = 48
  /\ risk (guarded_right 3 5) (24, 10)
     = count_damage_sum (guarded_right 3 5)
         (find_path_to_edge (guarded_right 3 5) (24, 10))
  /\ risk (guarded_right 3 5) (24, 10)
     = own_damage_sum (guarded_right 3 5)
         (find_path_to_edge (guarded_right 3 5) (24, 10)).
Proof.
  split; [exact arena_laws|]. split; [reflexivity|].
  exact (risk_is_attacker_damage_sum (L := arena_laws) (guarded_right 3 5) (24, 10)).
Defined.

Lemma commitment_fixed_after_decision_witness :
  GameLibLaws Arena.lib
  /\ turn_number (guarded_left 3 5) = 3
  /\ Forall later_event [ActionFrame [mkBreach (10, 2) 2];
                         Turn (guarded_left 4 12);
                         Turn (empty_board 5 3)]
  /\ exists s3 sN,
       step start (Turn (guarded_left 3 5)) = Returned s3
       /\ chosen s3
       /\ run s3 [ActionFrame [mkBreach (10, 2) 2];
                  Turn (guarded_left 4 12);
                  Turn (empty_board 5 3)] = Returned sN
       /\ same_commitment s3 sN
       /\ forall before gs after,
            [ActionFrame [mkBreach (10, 2) 2];
             Turn (guarded_left 4 12);
             Turn (empty_board 5 3)] = before ++ Turn gs :: after ->
            exists s,
              run s3 before = Returned s
              /\ same_commitment s3 s
              /\ fst (on_turn s gs) = Returned tt
              /\ In (AttemptSpawn ENCRYPTOR (funnel_locations (funnel_left s3)) 1)
                    (turn_calls s gs).
Proof.
  assert (Hlater : Forall later_event [ActionFrame [mkBreach (10, 2) 2];
                                       Turn (guarded_left 4 12);
                                       Turn (empty_board 5 3)]).
  { repeat constructor; simpl; lia. }
  split; [exact arena_laws|]. split; [reflexivity|]. split; [exact Hlater|].
  exact (commitment_fixed_after_decision (L := arena_laws)
           start (guarded_left 3 5) _ eq_refl Hlater).
Defined.

Lemma swarm_iff_pool_at_least_10_witness :
  GameLibLaws Arena.lib
  /\ 3 < turn_number (empty_board 4 10)
  /\ best_location committed = Some (3, 10)
  /\ In (AttemptSpawn PING [(3, 10)] 1000) (turn_calls committed (empty_board 4 10))
  /\ ~ In (AttemptSpawn PING [(3, 10)] 1000) (turn_calls committed (empty_board 4 9)).
Proof.
  assert (H10 : 3 < turn_number (empty_board 4 10)) by (simpl; lia).
  assert (H9 : 3 < turn_number (empty_board 4 9)) by (simpl; lia).
  split; [exact arena_laws|]. split; [exact H10|]. split; [reflexivity|].
  split.
  - apply (proj1 (swarm_iff_pool_at_least_10 (L := arena_laws)
                    committed (empty_board 4 10) (3, 10) H10 eq_refl)).
    apply Qle_bool_iff. reflexivity.
  - intros H.
    apply (proj1 (swarm_iff_pool_at_least_10 (L := arena_laws)
                    committed (empty_board 4 9) (3, 10) H9 eq_refl)) in H.
    apply Qle_bool_iff in H. discriminate H.
Defined.

Lemma spawn_location_assigned_only_by_decision_turn_witness :
  GameLibLaws Arena.lib
  /\ Forall (fun e => ~ is_turn 3 e) [ActionFrame [mkBreach (10, 2) 2]]
  /\ run (on_game_start 0%nat) [ActionFrame [mkBreach (10, 2) 2]]
     = Returned (on_action_frame start [mkBreach (10, 2) 2])
  /\ 3 < turn_number (empty_board 4 10)
  /\ (10 <= get_resource_BITS (empty_board 4 10))%Q
  /\ fst (on_turn (on_action_frame start [mkBreach (10, 2) 2]) (empty_board 4 10))
     = Raised AttributeError
  /\ Exists (is_turn 3) [Turn (guarded_left 3 5); Turn (empty_board 4 10)]
  /\ run start [Turn (guarded_left 3 5); Turn (empty_board 4 10)]
     = Returned {| scored_on_locations := [];
                   funnel_left := false;
                   best_location := Some (24, 10);
                   random_state := 0%nat |}
  /\ (Some (24, 10) = Some (3, 10) \/ Some (24, 10) = Some (24, 10) :> option Location).
Proof.
  assert (Hnone : Forall (fun e : Event => ~ is_turn 3 e)
                         [ActionFrame [mkBreach (10, 2) 2]]).
  { repeat constructor. simpl. tauto. }
  assert (Hturn : 3 < turn_number (empty_board 4 10)) by (simpl; lia).
  assert (Hpool : (10 <= get_resource_BITS (empty_board 4 10))%Q).
  { apply Qle_bool_iff. reflexivity. }
  assert (Hex : Exists (is_turn 3) [Turn (guarded_left 3 5); Turn (empty_board 4 10)]).
  { left. reflexivity. }
  assert (Hrun : run start [Turn (guarded_left 3 5); Turn (empty_board 4 10)]
                 = Returned {| scored_on_locations := [];
                               funnel_left := false;
                               best_location := Some (24, 10);
                               random_state := 0%nat |})
    by (vm_compute; reflexivity).
  split; [exact arena_laws|]. split; [exact Hnone|]. split; [reflexivity|].
  split; [exact Hturn|]. split; [exact Hpool|]. split.
  - destruct (proj1 (spawn_location_assigned_only_by_decision_turn (L := arena_laws))
                    0%nat [ActionFrame [mkBreach (10, 2) 2]]
                    (on_action_frame start [mkBreach (10, 2) 2])
                    (empty_board 4 10) Hnone eq_refl Hturn)
      as (_ & _ & Hraise & _).
    exact (Hraise Hpool).
  - split; [exact Hex|]. split; [exact Hrun|].
    exact (proj2 (spawn_location_assigned_only_by_decision_turn (L := arena_laws))
                 start _ _ Hex Hrun).
Defined.

Lemma additional_defenses_second_is_first_without_centre_witness :
  In (16, 12) additional_locations_second
  /\ In (16, 12) additional_locations_first
  /\ In (14, 12) additional_locations_first.
Proof.
  assert (H16 : In (16, 12) additional_locations_second) by (vm_compute; tauto).
  destruct (additional_defenses_second_is_first_without_centre (G := Arena.lib))
    as (_ & _ & Hiff & _).
  split; [exact H16|]. split.
  - apply Hiff. left. exact H16.
  - apply Hiff. right. right. reflexivity.
Defined.

(** ** Further properties of the strategy *)

Section MoreProperties.

Context {G : GameLib}.

(** *** The choice among any number of candidates *)

Lemma first_least_split (gs : GameState) (opts : list Location) :
  opts <> [] ->
  exists pre c post,
    opts = pre ++ c :: post
    /\ (forall l, In l pre -> risk gs c < risk gs l)
    /\ (forall l, In l post -> risk gs c <= risk gs l).
Proof.
  induction opts as [|a rest IH]; intros Hne; [congruence|].
  destruct rest as [|b rest'].
  - exists [], a, []. repeat split; intros l [].
  - destruct IH as (pre & c & post & Heq & Hpre & Hpost); [discriminate|].
    destruct (Z.le_gt_cases (risk gs a) (risk gs c)) as [Hle|Hgt].
    + exists [], a, (b :: rest'). split; [reflexivity|].
      split; [intros l []|].
      intros l Hl. rewrite Heq in Hl. apply in_app_or in Hl.
      destruct Hl as [Hl|[<-|Hl]].
      * specialize (Hpre l Hl). lia.
      * exact Hle.
      * specialize (Hpost l Hl). lia.
    + exists (a :: pre), c, post. split; [now rewrite Heq|].
      split; [|exact Hpost].
      intros l [<-|Hl]; [lia | now apply Hpre].
Qed.

(** X1: [least_damage_spawn_location] raises [ValueError] on an empty list
    of options; on any other list it returns one of the options, the first
    one whose damage estimate is the least: every option before it scores
    strictly more, no option scores less. *)
Theorem least_damage_spawn_location_spec (gs : GameState) :
  least_damage_spawn_location gs [] = Raised ValueError
  /\ forall opts,
       opts <> [] ->
       exists pre c post,
         opts = pre ++ c :: post
         /\ least_damage_spawn_location gs opts = Returned c
         /\ (forall l, In l pre -> risk gs c < risk gs l)
         /\ (forall l, In l opts -> risk gs c <= risk gs l).
Proof.
  split; [reflexivity|].
  intros opts Hne.
  destruct (first_least_split gs opts Hne) as (pre & c & post & Heq & Hpre & Hpost).
  exists pre, c, post. split; [exact Heq|].
  split; [rewrite Heq; now apply least_damage_first_least|].
  split; [exact Hpre|].
  intros l Hl. rewrite Heq in Hl. apply in_app_or in Hl.
  destruct Hl as [Hl|[<-|Hl]].
  - specialize (Hpre l Hl). lia.
  - lia.
  - now apply Hpost.
Qed.

(** *** The damage estimate as a sum *)

Lemma list_sum_Z_app (a b : list Z) :
  list_sum_Z (a ++ b) = list_sum_Z a + list_sum_Z b.
Proof.
  induction a as [|x a IH]; simpl; [reflexivity|]. rewrite IH. lia.
Qed.

Lemma list_sum_Z_perm (a b : list Z) :
  Permutation a b -> list_sum_Z a = list_sum_Z b.
Proof.
  induction 1; simpl; lia.
Qed.

(** X2: the damage estimate of a path is additive over concatenation, and
    it depends on which locations are traversed and how often, not on
    their order. *)
Theorem path_damage_additive (gs : GameState) :
  (forall p q, path_damage gs (p ++ q) = path_damage gs p + path_damage gs q)
  /\ (forall p q, Permutation p q -> path_damage gs p = path_damage gs q).
Proof.
  split.
  - intros p q. rewrite !path_damage_count_sum. unfold count_damage_sum.
    now rewrite map_app, list_sum_Z_app.
  - intros p q Hperm. rewrite !path_damage_count_sum. unfold count_damage_sum.
    apply list_sum_Z_perm. now apply Permutation_map.
Qed.

(** *** Action frames *)

(** X3: two action frames in a row do what one frame with both breach
    lists does, and a frame whose breaches are all our own leaves the
    instance as it is. *)
Theorem on_action_frame_compose (s : AlgoStrategy) :
  (forall b1 b2,
      on_action_frame (on_action_frame s b1) b2 = on_action_frame s (b1 ++ b2))
  /\ (forall breaches,
        (forall b, In b breaches -> breach_owner b = 1) ->
        on_action_frame s breaches = s).
Proof.
  split.
  - intros b1 b2. unfold on_action_frame. simpl. now rewrite fold_left_app.
  - intros breaches Hown. destruct s as [log fl best r].
    unfold on_action_frame. simpl. f_equal.
    rewrite record_breaches.
    replace (filter (fun b => negb (unit_owner_self b)) breaches) with (@nil Breach).
    + apply app_nil_r.
    + symmetry. induction breaches as [|b bs IH]; [reflexivity|].
      simpl. unfold unit_owner_self at 1.
      rewrite (Hown b (or_introl eq_refl)). simpl.
      apply IH. intros b' Hb'. apply Hown. now right.
Qed.

(** *** The reinforcement pass *)

(** X4: [build_reactive_defense] never raises and leaves the instance as
    it is; it issues one single-location destructor placement per entry of
    the log, three rows above it, in log order and without removing
    duplicates. *)
Theorem build_reactive_defense_spec (w : World) :
  fst (build_reactive_defense w) = Returned tt
  /\ self (snd (build_reactive_defense w)) = self w
  /\ calls (snd (build_reactive_defense w))
     = calls w ++ reinforcement_calls (scored_on_locations (self w))
  /\ length (reinforcement_calls (scored_on_locations (self w)))
     = length (scored_on_locations (self w))
  /\ forall l,
       In l (scored_on_locations (self w)) ->
       In (AttemptSpawn DESTRUCTOR [(fst l, snd l + 3)] 1)
          (calls (snd (build_reactive_defense w))).
Proof.
  rewrite build_reactive_defense_eq. simpl fst. simpl snd.
  split; [reflexivity|]. split; [apply self_reinforce|].
  split; [apply calls_reinforce|].
  split; [apply length_map|].
  intros l Hl. rewrite calls_reinforce. apply in_or_app. right.
  now apply (in_map (fun l => AttemptSpawn DESTRUCTOR [build_location l] 1)).
Qed.

(** *** What a turn calls *)

Lemma is_spawn_of_attempt (u : UnitKind) (c : Call) :
  is_spawn_of u c = true -> is_attempt c = true.
Proof. destruct c; [reflexivity | discriminate]. Qed.

Lemma reinforcement_attempts (log : list Location) :
  Forall (fun c => is_attempt c = true) (reinforcement_calls log).
Proof.
  unfold reinforcement_calls. apply Forall_forall. intros c Hc.
  apply in_map_iff in Hc. destruct Hc as [l [<- _]]. reflexivity.
Qed.

Lemma funnel_strategy_attempts (w w' : World) (o : outcome unit) :
  funnel_strategy w = (o, w') ->
  exists more,
    calls w' = calls w ++ more /\ Forall (fun c => is_attempt c = true) more.
Proof.
  intros H.
  assert (Hpre : exists base,
             calls (prelude w) = calls w ++ base
             /\ Forall (fun c => is_attempt c = true) base).
  { eexists. split; [apply calls_prelude|].
    constructor; [reflexivity | apply reinforcement_attempts]. }
  destruct Hpre as [base [Hbase Hall]].
  assert (Hext : exists extra,
             calls w' = calls (prelude w) ++ extra
             /\ Forall (fun c => is_attempt c = true) extra).
  { destruct (funnel_strategy_cases w) as [Hlt|[Heq|Hgt]].
    - destruct (funnel_strategy_early w w' o Hlt H) as [_ [more [Hc Hs]]].
      exists more. split; [exact Hc|].
      eapply Forall_impl; [|exact Hs]. intros c. apply is_spawn_of_attempt.
    - rewrite (funnel_strategy_decision w Heq) in H. inversion H; subst.
      eexists. split; [reflexivity|]. repeat constructor.
    - rewrite (funnel_strategy_late w Hgt) in H. unfold offensive in H.
      destruct (Qle_bool 10 _).
      + destruct (best_location (self (fortify (prelude w)))); inversion H; subst.
        * rewrite calls_emit, calls_fortify, <- app_assoc.
          eexists. split; [reflexivity|]. repeat constructor.
        * rewrite calls_fortify. eexists. split; [reflexivity|].
          repeat constructor.
      + inversion H; subst. rewrite calls_fortify.
        eexists. split; [reflexivity|]. repeat constructor. }
  destruct Hext as [extra [Hextra Hall']].
  exists (base ++ extra). split.
  - rewrite Hextra, Hbase. now rewrite app_assoc.
  - apply Forall_app. now split.
Qed.

Lemma attempts_without_submit (l : list Call) :
  Forall (fun c => is_attempt c = true) l -> ~ In SubmitTurn l.
Proof.
  intros Hall Hin. rewrite Forall_forall in Hall.
  specialize (Hall _ Hin). discriminate Hall.
Qed.

(** X5: a turn that returns has submitted exactly once: [submit_turn] is
    the last entry of its trace of spawn attempts and submissions and
    occurs nowhere before.  A turn that raises has not submitted: its
    trace holds no [submit_turn] at all. *)
Theorem submit_turn_once_and_last (s : AlgoStrategy) (gs : GameState) :
  (fst (on_turn s gs) = Returned tt ->
   exists before,
     turn_calls s gs = before ++ [SubmitTurn]
     /\ ~ In SubmitTurn before)
  /\ (forall e,
        fst (on_turn s gs) = Raised e ->
        ~ In SubmitTurn (turn_calls s gs)).
Proof.
  unfold turn_calls. rewrite on_turn_eq.
  destruct (funnel_strategy (init_world s gs)) as [o w] eqn:E.
  destruct (funnel_strategy_attempts _ _ _ E) as [more [Hc Hall]].
  apply attempts_without_submit in Hall.
  simpl in Hc. destruct o as [a|x]; simpl; split.
  - intros _. exists more. rewrite Hc. now split.
  - intros e He. discriminate He.
  - intros He. discriminate He.
  - intros e _. now rewrite Hc.
Qed.

(** *** The stalling turns *)

Lemma stall_loop_exact (fuel : nat) (count quarter : Z) (w : World) :
  randint_in_range ->
  (Z.to_nat (quarter - count) <= fuel)%nat ->
  exists locs w',
    stall_loop fuel count quarter w = (Returned tt, w')
    /\ same_attributes (self w) (self w')
    /\ calls w' = calls w ++ map (fun l => AttemptSpawn SCRAMBLER [l] 1) locs
    /\ length locs = Z.to_nat (quarter - count)
    /\ Forall (fun l => l = (9, 4) \/ l = (18, 4)) locs.
Proof.
  intros Hrand. revert count w; induction fuel as [|fuel IH]; intros count w Hfuel.
  - exists [], w. simpl. rewrite app_nil_r.
    repeat split; [lia | constructor].
  - cbn [stall_loop].
    destruct (Z.ltb_spec count quarter) as [Hlt|Hge].
    2:{ exists [], w. simpl. rewrite app_nil_r.
        repeat split; [lia | constructor]. }
    change (0 <? Z.of_nat (length deploy_locations)) with true. cbn [andb].
    change (Z.of_nat (length deploy_locations) - 1) with 1.
    unfold bind, draw, lift, spawn.
    pose proof (Hrand (random_state (self w)) 0 1 ltac:(lia)) as Hv.
    destruct (randint (random_state (self w)) 0 1) as [v r]. simpl in Hv.
    assert (Hloc : exists loc,
               py_getitem deploy_locations v = Returned loc
               /\ (loc = (9, 4) \/ loc = (18, 4))).
    { assert (v = 0 \/ v = 1) as [-> | ->] by lia.
      - exists (9, 4). split; [reflexivity | now left].
      - exists (18, 4). split; [reflexivity | now right]. }
    destruct Hloc as [loc [Hget Hwhich]]. rewrite Hget.
    match goal with |- context [stall_loop fuel (count + 1) quarter ?w1] =>
      destruct (IH (count + 1) w1 ltac:(lia))
        as (locs & w' & Hrun & Hs & Hc & Hlen & Hall) end.
    exists (loc :: locs), w'. split; [exact Hrun|]. split.
    + eapply same_attributes_trans; [|exact Hs]. repeat split.
    + split; [rewrite Hc; simpl; now rewrite <- app_assoc|].
      split; [simpl; rewrite Hlen; lia|].
      now constructor.
Qed.

Section MoreLawful.

Context {L : GameLibLaws G}.

(** X6: with [randint] keeping to its interval, a turn before turn 3
    returns; after the base defenses and the reinforcements it spawns
    [BITS // 4 + 1] scramblers one by one, each at (9, 4) or (18, 4), and
    nothing else; the log, the side flag and the spawn location stay as
    they were. *)
Theorem stalling_turn_spec (s : AlgoStrategy) (gs : GameState) :
  randint_in_range ->
  turn_number gs < 3 ->
  exists locs,
    fst (on_turn s gs) = Returned tt
    /\ same_attributes s (self (snd (on_turn s gs)))
    /\ turn_calls s gs
       = AttemptSpawn DESTRUCTOR destructor_locations_13 1
           :: reinforcement_calls (scored_on_locations s)
           ++ map (fun l => AttemptSpawn SCRAMBLER [l] 1) locs
           ++ [SubmitTurn]
    /\ length locs = Z.to_nat (Qfloor (get_resource_BITS gs / 4) + 1)
    /\ Forall (fun l => l = (9, 4) \/ l = (18, 4)) locs.
Proof.
  intros Hrand Hturn.
  assert (Hq : Qfloor (get_resource_BITS (game_state (prelude (init_world s gs))) / 4)
               = Qfloor (get_resource_BITS gs / 4)).
  { apply Qfloor_comp. apply Qdiv_comp; [|reflexivity]. apply bits_prelude. }
  assert (Hfs : funnel_strategy (init_world s gs)
                = stall_loop (Z.to_nat (Qfloor (get_resource_BITS gs / 4) + 1)) 0
                             (Qfloor (get_resource_BITS gs / 4) + 1)
                             (prelude (init_world s gs))).
  { rewrite funnel_strategy_prelude.
    unfold bind at 1. unfold get_game_state at 1. cbv beta iota.
    destruct (Z.ltb_spec (turn_number (game_state (prelude (init_world s gs)))) 3)
      as [_|Hge]; [|rewrite turn_number_prelude in Hge; simpl in Hge; lia].
    unfold stall_with_scramblers, bind, get_game_state.
    rewrite Hq. reflexivity. }
  set (quarter := Qfloor (get_resource_BITS gs / 4) + 1) in *.
  destruct (stall_loop_exact (Z.to_nat quarter) 0 quarter
                             (prelude (init_world s gs)) Hrand ltac:(lia))
    as (locs & w' & Hrun & Hs & Hc & Hlen & Hall).
  unfold turn_calls. rewrite on_turn_eq, Hfs, Hrun.
  exists locs. cbn [fst snd self calls].
  split; [reflexivity|]. split.
  - rewrite self_prelude in Hs. exact Hs.
  - split.
    + rewrite Hc, calls_prelude. cbn [calls self init_world app].
      unfold reinforcement_calls. now rewrite <- app_assoc.
    + split; [rewrite Hlen; f_equal; lia | exact Hall].
Qed.

(** X7: turn 3 always returns.  Its calls are the base defenses, the
    reinforcements, one encryptor placement over the right funnel pattern
    and the submission: no mobile unit is spawned and no fortification row
    is laid on the decision turn.  The spawn location it stores is the
    least-damage candidate on the game state as those placements left it,
    the log and the generator are untouched. *)
Theorem decision_turn_spec (s : AlgoStrategy) (gs : GameState) :
  turn_number gs = 3 ->
  exists c,
    least_damage_spawn_location
      (game_state (snd (build_reactive_defense
                          (snd (build_defenses (init_world s gs))))))
      ping_spawn_location_options = Returned c
    /\ on_turn s gs
       = (Returned tt,
          {| self := {| scored_on_locations := scored_on_locations s;
                        funnel_left := false;
                        best_location := Some c;
                        random_state := random_state s |};
             game_state :=
               attempt_spawn
                 (game_state (snd (build_reactive_defense
                                     (snd (build_defenses (init_world s gs))))))
                 ENCRYPTOR right_funnel_locations 1;
             calls :=
               AttemptSpawn DESTRUCTOR destructor_locations_13 1
                 :: reinforcement_calls (scored_on_locations s)
                 ++ [AttemptSpawn ENCRYPTOR right_funnel_locations 1; SubmitTurn] |}).
Proof.
  intros Hturn.
  assert (Hpre : snd (build_reactive_defense (snd (build_defenses (init_world s gs))))
                 = prelude (init_world s gs)).
  { rewrite build_reactive_defense_eq. reflexivity. }
  rewrite Hpre.
  exists (best_of (game_state (prelude (init_world s gs)))).
  split; [apply least_damage_two|].
  rewrite (on_turn_decision s gs Hturn). f_equal.
  unfold decided. cbn [self game_state calls].
  rewrite self_prelude, calls_prelude. cbn [self calls init_world app].
  unfold reinforcement_calls. now rewrite <- app_assoc.
Qed.

(** X8: with [randint] keeping to its interval, the only way a turn can
    raise is the swarm step reading the unassigned spawn location: the
    exception is [AttributeError], the turn number is past 3, no decision
    turn has stored a location and the pool is at least 10.  Every other
    turn returns. *)
Theorem on_turn_raises_iff (s : AlgoStrategy) (gs : GameState) (e : PyExn) :
  randint_in_range ->
  (fst (on_turn s gs) = Raised e
   <-> e = AttributeError /\ 3 < turn_number gs
       /\ best_location s = None /\ (10 <= get_resource_BITS gs)%Q).
Proof.
  intros Hrand.
  destruct (Z.lt_trichotomy (turn_number gs) 3) as [Hlt|[Heq|Hgt]].
  - destruct (stalling_turn_spec s gs Hrand Hlt) as [locs [Hret _]].
    rewrite Hret. split; [discriminate | intros (_ & H & _); lia].
  - rewrite (on_turn_decision s gs Heq). simpl.
    split; [discriminate | intros (_ & H & _); lia].
  - rewrite (on_turn_late s gs Hgt). cbv zeta.
    destruct (Qle_bool 10 (get_resource_BITS gs)) eqn:E.
    + apply Qle_bool_iff in E.
      destruct (best_location s) as [l|]; simpl.
      * split; [discriminate | intros (_ & _ & H & _); discriminate H].
      * split; [intros H; inversion H; subst; tauto|].
        intros (-> & _). reflexivity.
    + simpl. split; [discriminate|].
      intros (_ & _ & _ & H). apply Qle_bool_iff in H. congruence.
Qed.

Lemma in_order_run_returns (events : list Event) (s : AlgoStrategy) (d : bool) :
  randint_in_range ->
  (d = true -> best_location s <> None) ->
  decision_before_swarm d events ->
  exists s', run s events = Returned s'.
Proof.
  intros Hrand. revert s d; induction events as [|e events IH]; intros s d Hd Hord.
  - exists s. reflexivity.
  - destruct e as [gs|breaches]; simpl in Hord.
    + destruct Hord as [Hlate Hrest].
      destruct (Z.lt_trichotomy (turn_number gs) 3) as [Hlt|[Heq|Hgt]].
      * destruct (stalling_turn_spec s gs Hrand Hlt) as [locs [Hret [Hs _]]].
        simpl. destruct (on_turn s gs) as [o w]. simpl in Hret, Hs. subst o.
        apply (IH (self w) (d || (turn_number gs =? 3))); [|exact Hrest].
        destruct (Z.eqb_spec (turn_number gs) 3); [lia|].
        rewrite orb_false_r. intros Hdt.
        destruct Hs as (_ & _ & Hb). rewrite Hb. now apply Hd.
      * change (run s (Turn gs :: events))
          with (match step s (Turn gs) with
                | Returned s' => run s' events
                | Raised x => Raised x
                end).
        rewrite (step_decision s gs Heq).
        apply (IH _ (d || (turn_number gs =? 3))); [|exact Hrest].
        intros _. discriminate.
      * change (run s (Turn gs :: events))
          with (match step s (Turn gs) with
                | Returned s' => run s' events
                | Raised x => Raised x
                end).
        rewrite (step_late s gs Hgt).
        specialize (Hd (Hlate Hgt)).
        destruct (best_location s) as [l|] eqn:Hb; [|congruence].
        assert (Hstay : (if Qle_bool 10 (get_resource_BITS gs)
                         then Returned s else Returned s) = Returned s)
          by (now destruct (Qle_bool 10 _)).
        rewrite Hstay.
        apply (IH s (d || (turn_number gs =? 3))); [|exact Hrest].
        intros _. congruence.
    + simpl. apply (IH _ d); [|exact Hord].
      intros Hdt. simpl. now apply Hd.
Qed.

(** X9: a match played in order never raises.  With [randint] keeping to
    its interval, from a fresh instance every run of turns and action
    frames in which a turn past 3 only comes after a turn 3 returns. *)
Theorem in_order_match_never_raises (seed : Random) (events : list Event) :
  randint_in_range ->
  decision_before_swarm false events ->
  exists s', run (on_game_start seed) events = Returned s'.
Proof.
  intros Hrand Hord.
  apply (in_order_run_returns events (on_game_start seed) false Hrand);
    [discriminate | exact Hord].
Qed.

End MoreLawful.

(** *** The defense rows *)

Lemma py_range_In (lo hi x : Z) : In x (py_range lo hi) <-> lo <= x < hi.
Proof.
  unfold py_range. rewrite in_map_iff. split.
  - intros [k [<- Hk]]. apply in_seq in Hk. lia.
  - intros H. exists (Z.to_nat (x - lo)). split; [lia|].
    apply in_seq. lia.
Qed.

Lemma py_in_gaps (i : Z) :
  py_in i gaps = true
  <-> i = 3 \/ i = 6 \/ i = 10 \/ i = 12 \/ i = 15 \/ i = 17 \/ i = 21 \/ i = 24.
Proof.
  unfold py_in, gaps. simpl. rewrite !orb_true_iff, !Z.eqb_eq.
  intuition (try discriminate).
Qed.

(** The gap columns are their own mirror image. *)
Lemma gaps_mirror (i : Z) : py_in (27 - i) gaps = py_in i gaps.
Proof.
  apply eq_true_iff_eq. rewrite !py_in_gaps. lia.
Qed.

Lemma row_locations_In (lo hi y : Z) (l : Location) :
  In l (row_locations lo hi y)
  <-> exists i, lo <= i < hi /\ py_in i gaps = false
                /\ (l = (i, y) \/ l = (27 - i, y)).
Proof.
  unfold row_locations. rewrite in_flat_map. split.
  - intros [i [Hi Hl]]. apply py_range_In in Hi. exists i.
    destruct (py_in i gaps); [contradiction|].
    split; [exact Hi|]. split; [reflexivity|].
    destruct Hl as [<-|[<-|[]]]; tauto.
  - intros [i (Hi & Hg & Hl)]. exists i. split; [now apply py_range_In|].
    rewrite Hg. destruct Hl as [-> | ->]; simpl; tauto.
Qed.

(** X10: the base row targets exactly the columns 0 to 27 of row 13 that
    are not gap columns.  Whatever the column range, every target of a
    mirrored row pass ([build_additional_defenses], [build_defenses3])
    lies on the row and off the gap columns, the mirrored targets
    included, and the mirror image of a target is a target. *)
Theorem row_targets_avoid_gaps :
  (forall l, In l destructor_locations_13
             <-> snd l = 13 /\ 0 <= fst l < 28 /\ py_in (fst l) gaps = false)
  /\ (forall lo hi y l,
        In l (row_locations lo hi y) ->
        snd l = y /\ py_in (fst l) gaps = false
        /\ In (27 - fst l, y) (row_locations lo hi y)).
Proof.
  split.
  - intros [x y]. unfold destructor_locations_13.
    rewrite in_map_iff. cbn [fst snd]. split.
    + intros [i [Heq Hi]]. inversion Heq; subst.
      apply filter_In in Hi. destruct Hi as [Hr Hg].
      apply py_range_In in Hr. rewrite negb_true_iff in Hg. tauto.
    + intros (-> & Hx & Hg). exists x. split; [reflexivity|].
      apply filter_In. split; [now apply py_range_In|].
      now rewrite Hg.
  - intros lo hi y l Hl. apply row_locations_In in Hl.
    destruct Hl as [i (Hi & Hg & [-> | ->])]; cbn [fst snd].
    + split; [reflexivity|]. split; [exact Hg|].
      apply row_locations_In. exists i. tauto.
    + split; [reflexivity|]. split; [now rewrite gaps_mirror|].
      apply row_locations_In. exists i.
      replace (27 - (27 - i)) with i by lia. tauto.
Qed.

End MoreProperties.

(** ** Properties of the helpers that read the game map *)

Section RestProperties.

Context {G : GameLib} {GM : GameMapLib G}.

(** *** [filter_blocked_locations] *)

Lemma fold_left_append_if (A : Type) (p : A -> bool) (l acc : list A) :
  fold_left (fun filtered x => if p x then filtered ++ [x] else filtered) l acc
  = acc ++ filter p l.
Proof.
  revert acc; induction l as [|x l IH]; intros acc; simpl.
  - now rewrite app_nil_r.
  - rewrite IH. destruct (p x); [|reflexivity].
    now rewrite <- app_assoc.
Qed.

Lemma filter_blocked_locations_filter (locations : list Location) (gs : GameState) :
  filter_blocked_locations locations gs
  = filter (fun l => negb (contains_stationary_unit gs l)) locations.
Proof.
  unfold filter_blocked_locations.
  now rewrite (fold_left_append_if _ (fun l => negb (contains_stationary_unit gs l))).
Qed.

(** X11: [filter_blocked_locations] keeps exactly the locations without a
    stationary unit, in their order; filtering again changes nothing, and
    filtering a concatenation is filtering the parts. *)
Theorem filter_blocked_locations_spec (gs : GameState) :
  (forall locs l,
      In l (filter_blocked_locations locs gs)
      <-> In l locs /\ contains_stationary_unit gs l = false)
  /\ (forall locs,
        filter_blocked_locations (filter_blocked_locations locs gs) gs
        = filter_blocked_locations locs gs)
  /\ (forall a b,
        filter_blocked_locations (a ++ b) gs
        = filter_blocked_locations a gs ++ filter_blocked_locations b gs)
  /\ (forall locs,
        (forall l, In l locs -> contains_stationary_unit gs l = false) ->
        filter_blocked_locations locs gs = locs).
Proof.
  split; [|split; [|split]].
  - intros locs l. rewrite filter_blocked_locations_filter, filter_In.
    now rewrite negb_true_iff.
  - intros locs. rewrite !filter_blocked_locations_filter.
    induction locs as [|x locs IH]; [reflexivity|]. simpl.
    destruct (contains_stationary_unit gs x) eqn:E; simpl; [exact IH|].
    rewrite E. simpl. now rewrite IH.
  - intros a b. rewrite !filter_blocked_locations_filter. apply filter_app.
  - intros locs Hfree. rewrite filter_blocked_locations_filter.
    induction locs as [|x locs IH]; [reflexivity|]. simpl.
    rewrite (Hfree x (or_introl eq_refl)). simpl. f_equal.
    apply IH. intros l Hl. apply Hfree. now right.
Qed.

(** *** [detect_enemy_unit] *)

Lemma fold_left_count (A : Type) (c : A -> bool) (l : list A) (t : Z) :
  fold_left (fun total u => if c u then total + 1 else total) l t
  = t + Z.of_nat (length (filter c l)).
Proof.
  revert t; induction l as [|u l IH]; intros t; simpl; [lia|].
  rewrite IH. destruct (c u); simpl length; lia.
Qed.

Lemma detect_enemy_unit_sum
    (gs : GameState) (ut : option UnitKind) (vx vy : option (list Z)) :
  detect_enemy_unit gs ut vx vy
  = list_sum_Z (map (enemy_units_at gs ut vx vy) (game_map gs)).
Proof.
  unfold detect_enemy_unit.
  assert (H : forall locs t,
             fold_left
               (fun total_units location =>
                  if contains_stationary_unit gs location then
                    fold_left
                      (fun total u =>
                         if counts_as_enemy ut vx vy location u
                         then total + 1 else total)
                      (game_map_at gs location) total_units
                  else total_units)
               locs t
             = t + list_sum_Z (map (enemy_units_at gs ut vx vy) locs)).
  { induction locs as [|loc locs IH]; intros t; simpl; [lia|].
    rewrite IH. unfold enemy_units_at at 2.
    destruct (contains_stationary_unit gs loc); [|lia].
    rewrite fold_left_count. lia. }
  rewrite H. lia.
Qed.

Lemma filter_length_mono (A : Type) (c d : A -> bool) (l : list A) :
  (forall u, c u = true -> d u = true) ->
  (length (filter c l) <= length (filter d l))%nat.
Proof.
  intros Himp. induction l as [|u l IH]; simpl; [lia|].
  destruct (c u) eqn:E.
  - rewrite (Himp u E). simpl. lia.
  - destruct (d u); simpl; lia.
Qed.

Lemma enemy_units_at_le
    (gs : GameState) (ut ut' : option UnitKind) (vx vx' vy vy' : option (list Z))
    (loc : Location) :
  (forall u, counts_as_enemy ut vx vy loc u = true ->
             counts_as_enemy ut' vx' vy' loc u = true) ->
  enemy_units_at gs ut vx vy loc <= enemy_units_at gs ut' vx' vy' loc.
Proof.
  intros Himp. unfold enemy_units_at.
  destruct (contains_stationary_unit gs loc); [|lia].
  apply inj_le. now apply filter_length_mono.
Qed.

Lemma detect_enemy_unit_le
    (gs : GameState) (ut ut' : option UnitKind) (vx vx' vy vy' : option (list Z)) :
  (forall loc u, counts_as_enemy ut vx vy loc u = true ->
                 counts_as_enemy ut' vx' vy' loc u = true) ->
  detect_enemy_unit gs ut vx vy <= detect_enemy_unit gs ut' vx' vy'.
Proof.
  intros Himp. rewrite !detect_enemy_unit_sum.
  apply list_sum_Z_le. intros loc _. apply enemy_units_at_le. apply Himp.
Qed.

(** X12: the count of [detect_enemy_unit] lies between 0 and the number of
    units standing on cells with a stationary unit; giving a filter (a
    unit type, a list of columns, a list of rows) never raises the count,
    and an empty list of columns or of rows makes it 0. *)
Theorem detect_enemy_unit_bounds
    (gs : GameState) (ut : option UnitKind) (vx vy : option (list Z)) :
  0 <= detect_enemy_unit gs ut vx vy <= units_on_stationary_cells gs
  /\ detect_enemy_unit gs ut vx vy <= detect_enemy_unit gs None vx vy
  /\ detect_enemy_unit gs ut vx vy <= detect_enemy_unit gs ut None vy
  /\ detect_enemy_unit gs ut vx vy <= detect_enemy_unit gs ut vx None
  /\ detect_enemy_unit gs ut (Some []) vy = 0
  /\ detect_enemy_unit gs ut vx (Some []) = 0.
Proof.
  assert (Hzero : forall ut' vx' vy',
             (forall loc u, counts_as_enemy ut' vx' vy' loc u = false) ->
             detect_enemy_unit gs ut' vx' vy' = 0).
  { intros ut' vx' vy' Hno. rewrite detect_enemy_unit_sum.
    induction (game_map gs) as [|loc locs IH]; [reflexivity|].
    simpl. rewrite IH. unfold enemy_units_at.
    destruct (contains_stationary_unit gs loc); [|reflexivity].
    replace (filter (counts_as_enemy ut' vx' vy' loc) (game_map_at gs loc))
      with (@nil GameUnit); [reflexivity|].
    symmetry. induction (game_map_at gs loc) as [|u us IHu]; [reflexivity|].
    simpl. now rewrite Hno. }
  split; [split|].
  - rewrite detect_enemy_unit_sum. apply list_sum_Z_nonneg.
    intros x Hx. apply in_map_iff in Hx. destruct Hx as [loc [<- _]].
    unfold enemy_units_at. destruct (contains_stationary_unit gs loc); lia.
  - rewrite detect_enemy_unit_sum. unfold units_on_stationary_cells.
    apply list_sum_Z_le. intros loc _. unfold enemy_units_at.
    destruct (contains_stationary_unit gs loc); [|lia].
    apply inj_le. apply List.filter_length_le.
  - split; [|split; [|split; [|split]]].
    + apply detect_enemy_unit_le. intros loc u. unfold counts_as_enemy.
      rewrite !andb_true_iff. simpl. tauto.
    + apply detect_enemy_unit_le. intros loc u. unfold counts_as_enemy.
      rewrite !andb_true_iff. simpl. tauto.
    + apply detect_enemy_unit_le. intros loc u. unfold counts_as_enemy.
      rewrite !andb_true_iff. simpl. tauto.
    + apply Hzero. intros loc u. unfold counts_as_enemy. simpl.
      now rewrite andb_false_r.
    + apply Hzero. intros loc u. unfold counts_as_enemy. simpl.
      now rewrite andb_false_r.
Qed.

Lemma counts_as_enemy_by_kind (loc : Location) (vx vy : option (list Z)) (u : GameUnit) :
  Z.b2z (counts_as_enemy None vx vy loc u)
  = Z.b2z (counts_as_enemy (Some FILTER) vx vy loc u)
    + Z.b2z (counts_as_enemy (Some ENCRYPTOR) vx vy loc u)
    + Z.b2z (counts_as_enemy (Some DESTRUCTOR) vx vy loc u)
    + Z.b2z (counts_as_enemy (Some PING) vx vy loc u)
    + Z.b2z (counts_as_enemy (Some EMP) vx vy loc u)
    + Z.b2z (counts_as_enemy (Some SCRAMBLER) vx vy loc u).
Proof.
  unfold counts_as_enemy. simpl none_or.
  destruct (player_index u =? 1), (none_or vx (py_in (fst loc))),
    (none_or vy (py_in (snd loc))), (unit_type u); reflexivity.
Qed.

Lemma filter_length_b2z (A : Type) (c : A -> bool) (l : list A) :
  Z.of_nat (length (filter c l)) = list_sum_Z (map (fun u => Z.b2z (c u)) l).
Proof.
  induction l as [|u l IH]; [reflexivity|].
  simpl. rewrite <- IH. destruct (c u); simpl length; simpl Z.b2z; lia.
Qed.

Lemma filter_length_by_kind (loc : Location) (vx vy : option (list Z))
    (us : list GameUnit) :
  Z.of_nat (length (filter (counts_as_enemy None vx vy loc) us))
  = Z.of_nat (length (filter (counts_as_enemy (Some FILTER) vx vy loc) us))
    + Z.of_nat (length (filter (counts_as_enemy (Some ENCRYPTOR) vx vy loc) us))
    + Z.of_nat (length (filter (counts_as_enemy (Some DESTRUCTOR) vx vy loc) us))
    + Z.of_nat (length (filter (counts_as_enemy (Some PING) vx vy loc) us))
    + Z.of_nat (length (filter (counts_as_enemy (Some EMP) vx vy loc) us))
    + Z.of_nat (length (filter (counts_as_enemy (Some SCRAMBLER) vx vy loc) us)).
Proof.
  rewrite !filter_length_b2z.
  induction us as [|u us IH]; [reflexivity|].
  cbn [map list_sum_Z fold_right].
  fold (list_sum_Z (map (fun u => Z.b2z (counts_as_enemy None vx vy loc u)) us)).
  fold (list_sum_Z (map (fun u => Z.b2z (counts_as_enemy (Some FILTER) vx vy loc u)) us)).
  fold (list_sum_Z (map (fun u => Z.b2z (counts_as_enemy (Some ENCRYPTOR) vx vy loc u)) us)).
  fold (list_sum_Z (map (fun u => Z.b2z (counts_as_enemy (Some DESTRUCTOR) vx vy loc u)) us)).
  fold (list_sum_Z (map (fun u => Z.b2z (counts_as_enemy (Some PING) vx vy loc u)) us)).
  fold (list_sum_Z (map (fun u => Z.b2z (counts_as_enemy (Some EMP) vx vy loc u)) us)).
  fold (list_sum_Z (map (fun u => Z.b2z (counts_as_enemy (Some SCRAMBLER) vx vy loc u)) us)).
  rewrite IH, (counts_as_enemy_by_kind loc vx vy u). lia.
Qed.

(** X13: counting by unit type splits the count: the number of enemy units
    found without a type filter is the sum of the numbers found for each
    of the six unit types, under the same column and row filters. *)
Theorem detect_enemy_unit_by_kind (gs : GameState) (vx vy : option (list Z)) :
  detect_enemy_unit gs None vx vy
  = detect_enemy_unit gs (Some FILTER) vx vy
    + detect_enemy_unit gs (Some ENCRYPTOR) vx vy
    + detect_enemy_unit gs (Some DESTRUCTOR) vx vy
    + detect_enemy_unit gs (Some PING) vx vy
    + detect_enemy_unit gs (Some EMP) vx vy
    + detect_enemy_unit gs (Some SCRAMBLER) vx vy.
Proof.
  rewrite !detect_enemy_unit_sum.
  induction (game_map gs) as [|loc locs IH]; [reflexivity|].
  simpl. rewrite IH. unfold enemy_units_at.
  destruct (contains_stationary_unit gs loc); [|lia].
  rewrite (filter_length_by_kind loc vx vy (game_map_at gs loc)). lia.
Qed.

(** *** [emp_line_strategy] *)

Lemma Qlt_bool_true (a b : Q) : Qlt_bool a b = true -> (a < b)%Q.
Proof.
  unfold Qlt_bool. intros H. apply negb_true_iff in H.
  apply Qnot_le_lt. intros Hle. apply Qle_bool_iff in Hle. congruence.
Qed.

Lemma Qlt_bool_false (a b : Q) : Qlt_bool a b = false -> (b <= a)%Q.
Proof.
  unfold Qlt_bool. intros H. apply negb_false_iff in H.
  now apply Qle_bool_iff.
Qed.

Lemma Qlt_bool_irrefl (a : Q) : Qlt_bool a a = false.
Proof.
  unfold Qlt_bool. apply negb_false_iff. apply Qle_bool_iff. apply Qle_refl.
Qed.

(** X14: the unit [emp_line_strategy] builds its line with is one of the
    three stationary units and none of them costs less.  On equal costs
    the earlier of FILTER, DESTRUCTOR, ENCRYPTOR is kept: it is FILTER
    exactly when neither of the others is strictly cheaper than FILTER,
    and ENCRYPTOR only when ENCRYPTOR is strictly cheaper than both. *)
Theorem cheapest_unit_spec :
  In cheapest_unit stationary_units
  /\ (forall u, In u stationary_units ->
                (unit_cost cheapest_unit <= unit_cost u)%Q)
  /\ (cheapest_unit = FILTER
      <-> (unit_cost FILTER <= unit_cost DESTRUCTOR)%Q
          /\ (unit_cost FILTER <= unit_cost ENCRYPTOR)%Q)
  /\ (cheapest_unit = ENCRYPTOR
      -> (unit_cost ENCRYPTOR < unit_cost FILTER)%Q
         /\ (unit_cost ENCRYPTOR < unit_cost DESTRUCTOR)%Q).
Proof.
  unfold cheapest_unit, stationary_units. cbn [fold_left].
  rewrite Qlt_bool_irrefl.
  destruct (Qlt_bool (unit_cost DESTRUCTOR) (unit_cost FILTER)) eqn:ED.
  - apply Qlt_bool_true in ED.
    destruct (Qlt_bool (unit_cost ENCRYPTOR) (unit_cost DESTRUCTOR)) eqn:EE.
    + apply Qlt_bool_true in EE.
      assert (unit_cost ENCRYPTOR < unit_cost FILTER)%Q
        by (eapply Qlt_trans; eassumption).
      split; [simpl; tauto|]. split.
      * intros u [<-|[<-|[<-|[]]]];
          [now apply Qlt_le_weak | now apply Qlt_le_weak | apply Qle_refl].
      * split; [|tauto].
        split; [discriminate|]. intros [Hd _].
        exfalso. exact (Qlt_not_le _ _ ED Hd).
    + apply Qlt_bool_false in EE.
      split; [simpl; tauto|]. split.
      * intros u [<-|[<-|[<-|[]]]];
          [now apply Qlt_le_weak | apply Qle_refl | exact EE].
      * split; [|discriminate].
        split; [discriminate|]. intros [Hd _].
        exfalso. exact (Qlt_not_le _ _ ED Hd).
  - apply Qlt_bool_false in ED.
    destruct (Qlt_bool (unit_cost ENCRYPTOR) (unit_cost FILTER)) eqn:EE.
    + apply Qlt_bool_true in EE.
      split; [simpl; tauto|]. split.
      * intros u [<-|[<-|[<-|[]]]];
          [now apply Qlt_le_weak | | apply Qle_refl].
        apply Qlt_le_weak. eapply Qlt_le_trans; eassumption.
      * split.
        -- split; [discriminate|]. intros [_ He].
           exfalso. exact (Qlt_not_le _ _ EE He).
        -- intros _. split; [exact EE|]. eapply Qlt_le_trans; eassumption.
    + apply Qlt_bool_false in EE.
      split; [simpl; tauto|]. split.
      * intros u [<-|[<-|[<-|[]]]]; [apply Qle_refl | exact ED | exact EE].
      * split; [tauto | discriminate].
Qed.

Lemma py_range_desc_In (start stop x : Z) :
  In x (py_range_desc start stop) <-> stop < x <= start.
Proof.
  unfold py_range_desc. rewrite in_map_iff. split.
  - intros [k [<- Hk]]. apply in_seq in Hk. lia.
  - intros H. exists (Z.to_nat (start - x)). split; [lia|].
    apply in_seq. lia.
Qed.

Lemma for_each_line (xs : list Z) (w : World) :
  for_each xs (fun x => spawn cheapest_unit [(x, 11)] 1) w
  = (Returned tt, line_world xs w).
Proof.
  revert w; induction xs as [|x xs IH]; intros w; [reflexivity|].
  simpl. unfold bind at 1. unfold spawn at 1. apply IH.
Qed.

Lemma line_world_spec (xs : list Z) (w : World) :
  self (line_world xs w) = self w
  /\ calls (line_world xs w) = calls w ++ line_calls xs.
Proof.
  revert w; induction xs as [|x xs IH]; intros w.
  - simpl. now rewrite app_nil_r.
  - change (line_world (x :: xs) w)
      with (line_world xs (emit cheapest_unit [(x, 11)] 1 w)).
    destruct (IH (emit cheapest_unit [(x, 11)] 1 w)) as [Hs Hc].
    split; [exact Hs|]. rewrite Hc. simpl. now rewrite <- app_assoc.
Qed.

(** X15: [emp_line_strategy] never raises and leaves the instance as it
    is.  It places the cheapest stationary unit once on each of the 22
    cells of row 11 from column 27 down to column 6, then requests EMPs at
    (24, 10): 1000 of them in the definition in effect, 2 in the earlier
    definition of the same name, which issues the same calls otherwise. *)
Theorem emp_line_strategy_spec (w : World) :
  fst (emp_line_strategy w) = Returned tt
  /\ self (snd (emp_line_strategy w)) = self w
  /\ calls (snd (emp_line_strategy w))
     = calls w ++ line_calls (py_range_desc 27 5)
       ++ [AttemptSpawn EMP [(24, 10)] 1000]
  /\ calls (snd (emp_line_strategy_first w))
     = calls w ++ line_calls (py_range_desc 27 5)
       ++ [AttemptSpawn EMP [(24, 10)] 2]
  /\ length (line_calls (py_range_desc 27 5)) = 22%nat
  /\ (forall c, In c (line_calls (py_range_desc 27 5))
       <-> exists x, 6 <= x <= 27 /\ c = AttemptSpawn cheapest_unit [(x, 11)] 1).
Proof.
  assert (Hrun : forall n,
             emp_line n w
             = (Returned tt, emit EMP [(24, 10)] n (line_world (py_range_desc 27 5) w))).
  { intros n. unfold emp_line. unfold bind at 1. rewrite for_each_line.
    reflexivity. }
  unfold emp_line_strategy, emp_line_strategy_first. rewrite !Hrun.
  cbn [fst snd]. rewrite !self_emit, !calls_emit.
  destruct (line_world_spec (py_range_desc 27 5) w) as [Hs Hc].
  rewrite Hs, Hc, <- !app_assoc.
  repeat split; try reflexivity.
  - intros Hin. unfold line_calls in Hin. apply in_map_iff in Hin.
    destruct Hin as [x [<- Hx]]. apply py_range_desc_In in Hx.
    exists x. split; [lia | reflexivity].
  - intros [x [Hx ->]]. unfold line_calls.
    apply (in_map (fun x => AttemptSpawn cheapest_unit [(x, 11)] 1)).
    apply py_range_desc_In. lia.
Qed.

End RestProperties.

(** ** The turns past the decision *)

Section LateTurns.

Context {G : GameLib} {L : GameLibLaws G}.

(** X16: a turn past 3 on an instance with a spawn location returns and
    leaves the whole instance as it was, generator included.  Its calls
    are, in this order: the base defenses, the reinforcements, the funnel
    of the side flag, the row-12 pass, the tunnel, the row-11 pass, then
    the swarm when the pool allows it, then the submission. *)
Theorem late_turn_spec (s : AlgoStrategy) (gs : GameState) (l : Location) :
  3 < turn_number gs ->
  best_location s = Some l ->
  fst (on_turn s gs) = Returned tt
  /\ self (snd (on_turn s gs)) = s
  /\ turn_calls s gs
     = AttemptSpawn DESTRUCTOR destructor_locations_13 1
         :: reinforcement_calls (scored_on_locations s)
         ++ [AttemptSpawn ENCRYPTOR (funnel_locations (funnel_left s)) 1;
             AttemptSpawn DESTRUCTOR additional_locations_second 1;
             AttemptSpawn ENCRYPTOR tunnel_locations 1;
             AttemptSpawn DESTRUCTOR (row_locations 2 26 11) 1]
         ++ (if Qle_bool 10 (get_resource_BITS gs)
             then [AttemptSpawn PING [l] 1000] else [])
         ++ [SubmitTurn].
Proof.
  intros Hturn Hbest.
  rewrite (turn_calls_late s gs Hturn). unfold swarm_calls.
  rewrite (on_turn_late s gs Hturn). cbv zeta. rewrite Hbest.
  destruct (Qle_bool 10 (get_resource_BITS gs)); repeat split.
Qed.

End LateTurns.

(** ** The further theorems at concrete inputs *)

Import ArenaMap.

Lemma arena_randint_in_range : randint_in_range (G := Arena.lib).
Proof.
  intros r a b Hab. simpl. unfold next_int. simpl.
  pose proof (Z.mod_pos_bound (Z.of_nat r) (b - a + 1) ltac:(lia)). lia.
Defined.

Lemma least_damage_spawn_location_spec_witness :
  [(3, 10); (24, 10); (5, 5)] <> []
  /\ exists pre c post,
       [(3, 10); (24, 10); (5, 5)] = pre ++ c :: post
       /\ least_damage_spawn_location (guarded_left 3 5) [(3, 10); (24, 10); (5, 5)]
          = Returned c
       /\ (forall l, In l pre -> risk (guarded_left 3 5) c < risk (guarded_left 3 5) l)
       /\ (forall l, In l [(3, 10); (24, 10); (5, 5)] ->
                     risk (guarded_left 3 5) c <= risk (guarded_left 3 5) l).
Proof.
  assert (Hne : [(3, 10); (24, 10); (5, 5)] <> (@nil Location)) by discriminate.
  split; [exact Hne|].
  exact (proj2 (least_damage_spawn_location_spec (G := Arena.lib) (guarded_left 3 5))
               _ Hne).
Defined.

Lemma path_damage_additive_witness :
  Permutation [(22, 12); (24, 10)] [(24, 10); (22, 12)]
  /\ path_damage (guarded_right 3 5) [(22, 12); (24, 10)]
     = path_damage (guarded_right 3 5) [(24, 10); (22, 12)].
Proof.
  assert (Hperm : Permutation [(22, 12); (24, 10)] [(24, 10); (22, 12)])
    by apply perm_swap.
  split; [exact Hperm|].
  exact (proj2 (path_damage_additive (G := Arena.lib) (guarded_right 3 5)) _ _ Hperm).
Defined.

Lemma on_action_frame_compose_witness :
  (forall b, In b [mkBreach (20, 27) 1] -> breach_owner b = 1)
  /\ on_action_frame start [mkBreach (20, 27) 1] = start.
Proof.
  assert (Hown : forall b, In b [mkBreach (20, 27) 1] -> breach_owner b = 1).
  { intros b [<-|[]]. reflexivity. }
  split; [exact Hown|].
  exact (proj2 (on_action_frame_compose (G := Arena.lib) start) _ Hown).
Defined.

Lemma build_reactive_defense_spec_witness :
  In (10, 2) (scored_on_locations (self (init_world committed (empty_board 4 9))))
  /\ In (AttemptSpawn DESTRUCTOR [(10, 5)] 1)
        (calls (snd (build_reactive_defense (init_world committed (empty_board 4 9))))).
Proof.
  assert (Hin : In (10, 2)
                   (scored_on_locations (self (init_world committed (empty_board 4 9)))))
    by (now left).
  split; [exact Hin|].
  destruct (build_reactive_defense_spec (G := Arena.lib)
              (init_world committed (empty_board 4 9)))
    as (_ & _ & _ & _ & Hcall).
  exact (Hcall (10, 2) Hin).
Defined.

Lemma submit_turn_once_and_last_witness :
  fst (on_turn start (empty_board 3 5)) = Returned tt
  /\ (exists before,
        turn_calls start (empty_board 3 5) = before ++ [SubmitTurn]
        /\ ~ In SubmitTurn before)
  /\ fst (on_turn start (empty_board 4 10)) = Raised AttributeError
  /\ ~ In SubmitTurn (turn_calls start (empty_board 4 10)).
Proof.
  assert (Hret : fst (on_turn start (empty_board 3 5)) = Returned tt)
    by (vm_compute; reflexivity).
  assert (Hraise : fst (on_turn start (empty_board 4 10)) = Raised AttributeError)
    by (vm_compute; reflexivity).
  split; [exact Hret|].
  split;
    [exact (proj1 (submit_turn_once_and_last (G := Arena.lib)
                     start (empty_board 3 5)) Hret)|].
  split; [exact Hraise|].
  exact (proj2 (submit_turn_once_and_last (G := Arena.lib)
                  start (empty_board 4 10)) _ Hraise).
Defined.

Lemma stalling_turn_spec_witness :
  GameLibLaws Arena.lib
  /\ randint_in_range (G := Arena.lib)
  /\ turn_number (empty_board 1 5) < 3
  /\ exists locs,
       fst (on_turn start (empty_board 1 5)) = Returned tt
       /\ same_attributes start (self (snd (on_turn start (empty_board 1 5))))
       /\ turn_calls start (empty_board 1 5)
          = AttemptSpawn DESTRUCTOR destructor_locations_13 1
              :: reinforcement_calls (scored_on_locations start)
              ++ map (fun l => AttemptSpawn SCRAMBLER [l] 1) locs
              ++ [SubmitTurn]
       /\ length locs = Z.to_nat (Qfloor (get_resource_BITS (empty_board 1 5) / 4) + 1)
       /\ Forall (fun l => l = (9, 4) \/ l = (18, 4)) locs.
Proof.
  assert (Hturn : turn_number (empty_board 1 5) < 3) by (simpl; lia).
  split; [exact arena_laws|]. split; [exact arena_randint_in_range|].
  split; [exact Hturn|].
  exact (stalling_turn_spec (L := arena_laws) start (empty_board 1 5)
                            arena_randint_in_range Hturn).
Defined.

Lemma decision_turn_spec_witness :
  GameLibLaws Arena.lib
  /\ turn_number (guarded_left 3 5) = 3
  /\ exists c,
       least_damage_spawn_location
         (game_state (snd (build_reactive_defense
                             (snd (build_defenses (init_world committed (guarded_left 3 5)))))))
         ping_spawn_location_options = Returned c
       /\ on_turn committed (guarded_left 3 5)
          = (Returned tt,
             {| self := {| scored_on_locations := scored_on_locations committed;
                           funnel_left := false;
                           best_location := Some c;
                           random_state := random_state committed |};
                game_state :=
                  attempt_spawn
                    (game_state (snd (build_reactive_defense
                                        (snd (build_defenses
                                                (init_world committed (guarded_left 3 5)))))))
                    ENCRYPTOR right_funnel_locations 1;
                calls :=
                  AttemptSpawn DESTRUCTOR destructor_locations_13 1
                    :: reinforcement_calls (scored_on_locations committed)
                    ++ [AttemptSpawn ENCRYPTOR right_funnel_locations 1; SubmitTurn] |}).
Proof.
  split; [exact arena_laws|]. split; [reflexivity|].
  exact (decision_turn_spec (L := arena_laws) committed (guarded_left 3 5) eq_refl).
Defined.

Lemma on_turn_raises_iff_witness :
  GameLibLaws Arena.lib
  /\ randint_in_range (G := Arena.lib)
  /\ (3 < turn_number (empty_board 4 10)
      /\ best_location start = None
      /\ (10 <= get_resource_BITS (empty_board 4 10))%Q)
  /\ fst (on_turn start (empty_board 4 10)) = Raised AttributeError.
Proof.
  assert (Hcond : 3 < turn_number (empty_board 4 10)
                  /\ best_location start = None
                  /\ (10 <= get_resource_BITS (empty_board 4 10))%Q).
  { split; [simpl; lia|]. split; [reflexivity|].
    apply Qle_bool_iff. reflexivity. }
  split; [exact arena_laws|]. split; [exact arena_randint_in_range|].
  split; [exact Hcond|].
  apply (proj2 (on_turn_raises_iff (L := arena_laws) start (empty_board 4 10)
                                   AttributeError arena_randint_in_range)).
  split; [reflexivity | exact Hcond].
Defined.

Lemma in_order_match_never_raises_witness :
  GameLibLaws Arena.lib
  /\ randint_in_range (G := Arena.lib)
  /\ decision_before_swarm false
       [Turn (empty_board 0 5); ActionFrame [mkBreach (10, 2) 2];
        Turn (empty_board 1 6); Turn (empty_board 2 7);
        Turn (guarded_left 3 8); Turn (empty_board 4 12)]
  /\ exists s',
       run (on_game_start 0%nat)
           [Turn (empty_board 0 5); ActionFrame [mkBreach (10, 2) 2];
            Turn (empty_board 1 6); Turn (empty_board 2 7);
            Turn (guarded_left 3 8); Turn (empty_board 4 12)]
       = Returned s'.
Proof.
  assert (Hord : decision_before_swarm false
                   [Turn (empty_board 0 5); ActionFrame [mkBreach (10, 2) 2];
                    Turn (empty_board 1 6); Turn (empty_board 2 7);
                    Turn (guarded_left 3 8); Turn (empty_board 4 12)]).
  { simpl. repeat split; intros; try lia; reflexivity. }
  split; [exact arena_laws|]. split; [exact arena_randint_in_range|].
  split; [exact Hord|].
  exact (in_order_match_never_raises (L := arena_laws) 0%nat _
                                     arena_randint_in_range Hord).
Defined.

Lemma row_targets_avoid_gaps_witness :
  In (4, 12) (row_locations 1 13 12)
  /\ snd (4, 12) = 12
  /\ py_in (fst (4, 12)) gaps = false
  /\ In (27 - fst (4, 12), 12) (row_locations 1 13 12).
Proof.
  assert (Hin : In (4, 12) (row_locations 1 13 12)) by (vm_compute; tauto).
  split; [exact Hin|].
  exact (proj2 row_targets_avoid_gaps 1 13 12 (4, 12) Hin).
Defined.

Lemma filter_blocked_locations_spec_witness :
  (forall l, In l [(0, 13); (1, 13)] -> contains_stationary_unit skirmish l = false)
  /\ filter_blocked_locations [(0, 13); (1, 13)] skirmish = [(0, 13); (1, 13)]
  /\ filter_blocked_locations [(0, 13); (22, 14); (3, 11); (1, 13)] skirmish
     = [(0, 13); (1, 13)].
Proof.
  assert (Hfree : forall l, In l [(0, 13); (1, 13)] ->
                            contains_stationary_unit skirmish l = false).
  { intros l [<-|[<-|[]]]; reflexivity. }
  split; [exact Hfree|]. split; [|reflexivity].
  destruct (filter_blocked_locations_spec (G := Arena.lib) (GM := map_lib) skirmish)
    as (_ & _ & _ & Hid).
  exact (Hid _ Hfree).
Defined.

Lemma cheapest_unit_spec_witness :
  In ENCRYPTOR stationary_units
  /\ cheapest_unit (GM := discount_lib) = DESTRUCTOR
  /\ (unit_cost (GameMapLib := discount_lib) (cheapest_unit (GM := discount_lib))
      <= unit_cost (GameMapLib := discount_lib) ENCRYPTOR)%Q.
Proof.
  assert (Hin : In ENCRYPTOR stationary_units) by (simpl; tauto).
  split; [exact Hin|]. split; [reflexivity|].
  destruct (cheapest_unit_spec (G := Arena.lib) (GM := discount_lib)) as (_ & Hle & _).
  exact (Hle ENCRYPTOR Hin).
Defined.

Lemma emp_line_strategy_spec_witness :
  (exists x, 6 <= x <= 27
             /\ AttemptSpawn FILTER [(6, 11)] 1
                = AttemptSpawn (cheapest_unit (GM := map_lib)) [(x, 11)] 1)
  /\ In (AttemptSpawn FILTER [(6, 11)] 1)
        (line_calls (GM := map_lib) (py_range_desc 27 5)).
Proof.
  assert (Hex : exists x, 6 <= x <= 27
                          /\ AttemptSpawn FILTER [(6, 11)] 1
                             = AttemptSpawn (cheapest_unit (GM := map_lib)) [(x, 11)] 1).
  { exists 6. split; [lia | reflexivity]. }
  split; [exact Hex|].
  destruct (emp_line_strategy_spec (G := Arena.lib) (GM := map_lib)
                                   (init_world start skirmish))
    as (_ & _ & _ & _ & _ & Hiff).
  exact (proj2 (Hiff _) Hex).
Defined.

Lemma late_turn_spec_witness :
  GameLibLaws Arena.lib
  /\ 3 < turn_number (empty_board 4 10)
  /\ best_location committed = Some (3, 10)
  /\ fst (on_turn committed (empty_board 4 10)) = Returned tt
  /\ self (snd (on_turn committed (empty_board 4 10))) = committed.
Proof.
  assert (Hturn : 3 < turn_number (empty_board 4 10)) by (simpl; lia).
  split; [exact arena_laws|]. split; [exact Hturn|]. split; [reflexivity|].
  destruct (late_turn_spec (L := arena_laws) committed (empty_board 4 10) (3, 10)
                           Hturn eq_refl) as (Hret & Hself & _).
  split; [exact Hret | exact Hself].
Defined.

(** The counts of [detect_enemy_unit] on a small board. *)
Example detect_enemy_unit_skirmish :
  detect_enemy_unit skirmish None None None = 3
  /\ detect_enemy_unit skirmish (Some DESTRUCTOR) None None = 2
  /\ detect_enemy_unit skirmish (Some DESTRUCTOR) (Some [5; 6]) None = 1
  /\ detect_enemy_unit skirmish None None (Some [15]) = 1
  /\ detect_enemy_unit skirmish (Some ENCRYPTOR) None None = 0.
Proof. repeat split; vm_compute; reflexivity. Qed.
